(** * Wedding guestbook: submission, moderation, public feed, archival export

    A shallow embedding of [server/index.js] (the Express handlers), of
    the export script (fetch every entry, download the photos, write the
    raw JSON and the HTML variants) and of [scripts/generate-html.js]
    (rebuild the HTML from the saved JSON and the photo files on disk).

    Conventions of the model.
    - A JavaScript string is a [string]; [String.length] stands for
      [.length].  Template literals are written out with [+:+].
    - Timestamps ([created_at], the value of NOW()) are integers.
    - The database is an in-memory table with a SERIAL sequence; the SQL
      statements of the handlers are total functions on it.  What the
      outside world decides (the outcome of an upload to Cloudinary, of an
      HTTP fetch) is an oracle indexed by the number of earlier calls.
    - The [backup/] directory is a record of finite maps; writing to it
      succeeds.
    - [async] code is written in a state-and-exception monad, so that the
      [try]/[catch] blocks of the source appear as such. *)

From stdpp Require Import base option list sorting strings gmap.
From Stdlib Require Import ZArith Ascii DecimalString.
From Stdlib.Strings Require Import Byte.

Local Open Scope Z_scope.

(* ================================================================== *)
(** * Strings *)

(** The double-quote character, which the templates of the source use in
    every attribute. *)
Definition quot : string := Eval cbv in String (Ascii.ascii_of_nat 34) "".

(** [`${n}`] for an integer and for a length. *)
Definition show_Z (n : Z) : string := NilZero.string_of_int (Z.to_int n).
Definition show_nat (n : nat) : string := NilZero.string_of_uint (Nat.to_uint n).

(** [list.join(sep)]. *)
Definition join (sep : string) (l : list string) : string := String.concat sep l.

(** [str.replace(/c/g, by)] for a one-character pattern. *)
Fixpoint replace_all (c : ascii) (by_ : string) (str : string) : string :=
  match str with
  | EmptyString => EmptyString
  | String a rest =>
      if Ascii.eqb a c then by_ +:+ replace_all c by_ rest
      else String a (replace_all c by_ rest)
  end.

(** Number of occurrences of a character. *)
Fixpoint count_char (c : ascii) (s : string) : nat :=
  match s with
  | EmptyString => 0%nat
  | String a rest => ((if Ascii.eqb a c then 1 else 0) + count_char c rest)%nat
  end.

(** [true] when [p] is a prefix of [s]. *)
Fixpoint starts_with (p s : string) : bool :=
  match p, s with
  | EmptyString, _ => true
  | String a p', String b s' => Ascii.eqb a b && starts_with p' s'
  | String _ _, EmptyString => false
  end.

(** [s.includes(p)]. *)
Fixpoint includes (p s : string) : bool :=
  starts_with p s ||
  match s with
  | EmptyString => false
  | String _ s' => includes p s'
  end.

(* ================================================================== *)
(** * JavaScript values of a request body

    [express.json()] and multer both fill [req.body]; a field is absent
    ([undefined]), a string (every multipart text field is one), or
    another JSON primitive. *)

Module Js.

Inductive value : Type :=
  | Undefined
  | Null
  | Bool (b : bool)
  | Num (n : Z)
  | Str (s : string).

(** [!!v] *)
Definition truthy (v : value) : bool :=
  match v with
  | Undefined | Null => false
  | Bool b => b
  | Num n => negb (n =? 0)
  | Str s => negb (String.eqb s "")
  end.

(** [a === b] *)
Definition strict_eq (a b : value) : bool :=
  match a, b with
  | Undefined, Undefined => true
  | Null, Null => true
  | Bool x, Bool y => Bool.eqb x y
  | Num x, Num y => x =? y
  | Str x, Str y => String.eqb x y
  | _, _ => false
  end.

(** [v.length > bound] for a truthy [v]: only a string has a [length];
    on a number or a boolean the property is [undefined], and
    [undefined > bound] is [false]. *)
Definition length_gt (v : value) (bound : nat) : bool :=
  match v with
  | Str s => bool_decide (bound < String.length s)%nat
  | _ => false
  end.

(** The text a query parameter is sent as ([String(v)]); [undefined] and
    [null] are sent as SQL NULL. *)
Definition to_sql_text (v : value) : option string :=
  match v with
  | Undefined | Null => None
  | Bool b => Some (if b then "true" else "false")
  | Num n => Some (show_Z n)
  | Str s => Some s
  end.

End Js.

(* ================================================================== *)
(** * Asynchronous code: state and exceptions

    [Async W A] is a computation over a world [W] that returns an [A] or
    throws.  What it did to the world before throwing stays done. *)

Inductive outcome (A : Type) : Type :=
  | Returned (a : A)
  | Threw (message : string).
Arguments Returned {A} a.
Arguments Threw {A} message.

Definition Async (W A : Type) : Type := W -> outcome A * W.

Definition ret {W A} (a : A) : Async W A := fun w => (Returned a, w).

Definition throw {W A} (message : string) : Async W A :=
  fun w => (Threw message, w).

Definition bind {W A B} (c : Async W A) (k : A -> Async W B) : Async W B :=
  fun w =>
    match c w with
    | (Returned a, w') => k a w'
    | (Threw m, w') => (Threw m, w')
    end.

(** [try { body } catch (err) { handler(err.message) }] *)
Definition try_catch {W A} (body : Async W A) (handler : string -> Async W A)
  : Async W A :=
  fun w =>
    match body w with
    | (Returned a, w') => (Returned a, w')
    | (Threw m, w') => handler m w'
    end.

Definition get_world {W} : Async W W := fun w => (Returned w, w).
Definition update_world {W} (f : W -> W) : Async W unit :=
  fun w => (Returned tt, f w).

Declare Scope async_scope.
Delimit Scope async_scope with async.
Notation "x <~ c ;; k" := (bind c (fun x => k))
  (at level 100, c at next level, right associativity) : async_scope.
Notation "c ;;; k" := (bind c (fun _ => k))
  (at level 100, right associativity) : async_scope.
Local Open Scope async_scope.

(* ================================================================== *)
(** * The entry store ([db/init.sql] and the SQL of [server/index.js]) *)

(** One row of [guestbook_entries]. *)
Record Row : Type := {
  r_id : Z;
  r_name : string;
  r_note : string;
  r_photos : list string;
  r_approved : bool;
  r_created_at : Z
}.

(** The columns the public feed selects: [id, name, note, photos,
    created_at].  There is no [approved] column in this shape. *)
Record PublicEntry : Type := {
  p_id : Z;
  p_name : string;
  p_note : string;
  p_photos : list string;
  p_created_at : Z
}.

Definition public_columns (r : Row) : PublicEntry :=
  {| p_id := r_id r; p_name := r_name r; p_note := r_note r;
     p_photos := r_photos r; p_created_at := r_created_at r |}.

(** The table and the sequence behind [id SERIAL]. *)
Record Table : Type := {
  rows : list Row;
  next_id : Z
}.

Definition empty_table : Table := {| rows := []; next_id := 1 |}.

(** [ORDER BY created_at DESC] and [ORDER BY created_at ASC]. *)
Definition newer_first (a b : Row) : Prop := r_created_at b <= r_created_at a.
Definition older_first (a b : Row) : Prop := r_created_at a <= r_created_at b.

#[global] Instance newer_first_dec : RelDecision newer_first.
Proof. intros a b. unfold newer_first. apply _. Defined.
#[global] Instance older_first_dec : RelDecision older_first.
Proof. intros a b. unfold older_first. apply _. Defined.

Definition order_by_created_at_desc (l : list Row) : list Row :=
  merge_sort newer_first l.
Definition order_by_created_at_asc (l : list Row) : list Row :=
  merge_sort older_first l.

(** [SELECT id, name, note, photos, created_at FROM guestbook_entries
     WHERE approved = true ORDER BY created_at DESC] *)
Definition select_approved (t : Table) : list PublicEntry :=
  public_columns <$> order_by_created_at_desc (filter (fun r => r_approved r = true) (rows t)).

(** [SELECT id, name, note, photos, created_at, approved
     FROM guestbook_entries ORDER BY created_at DESC] *)
Definition select_all (t : Table) : list Row :=
  order_by_created_at_desc (rows t).

(** The export script's query: the same columns, [ORDER BY created_at ASC]. *)
Definition select_all_asc (t : Table) : list Row :=
  order_by_created_at_asc (rows t).

(** [INSERT INTO guestbook_entries (name, note, photos, approved) VALUES
     (...) RETURNING id, name, created_at].  The statement fails when [name]
    or [note] is NULL (both columns are NOT NULL) and when [name] does not
    fit VARCHAR(120); [id] comes from the sequence and [created_at] from
    NOW(). *)
Definition insert_entry (name note : option string) (photos : list string)
    (approved : bool) (now : Z) (t : Table) : option (Row * Table) :=
  match name, note with
  | Some name, Some note =>
      if bool_decide (String.length name <= 120)%nat then
        let r := {| r_id := next_id t; r_name := name; r_note := note;
                    r_photos := photos; r_approved := approved;
                    r_created_at := now |} in
        Some (r, {| rows := rows t ++ [r]; next_id := next_id t + 1 |})
      else None
  | _, _ => None
  end.

(** [UPDATE guestbook_entries SET approved = ... WHERE id = ...
     RETURNING id, name, approved]: the updated rows and the new table. *)
Definition set_approved (approved : bool) (r : Row) : Row :=
  {| r_id := r_id r; r_name := r_name r; r_note := r_note r;
     r_photos := r_photos r; r_approved := approved;
     r_created_at := r_created_at r |}.

Definition update_approved (id : Z) (approved : bool) (t : Table)
    : list Row * Table :=
  let rows' := (fun r => if bool_decide (r_id r = id) then set_approved approved r else r) <$> rows t in
  (filter (fun r => r_id r = id) rows', {| rows := rows'; next_id := next_id t |}).

(** [DELETE FROM guestbook_entries WHERE id = ... RETURNING id]. *)
Definition delete_entry (id : Z) (t : Table) : list Z * Table :=
  (r_id <$> filter (fun r => r_id r = id) (rows t),
   {| rows := filter (fun r => r_id r ≠ id) (rows t); next_id := next_id t |}).

(* ================================================================== *)
(** * [server/index.js] *)

(** [process.env]. *)
Record Env : Type := {
  CLOUDINARY_CLOUD_NAME : option string;
  CLOUDINARY_API_KEY : option string;
  CLOUDINARY_API_SECRET : option string;
  ADMIN_PASSWORD : option string
}.

(** An environment variable or a request header as a JavaScript value. *)
Definition env_value (o : option string) : Js.value :=
  match o with
  | Some s => Js.Str s
  | None => Js.Undefined
  end.

(** [!!(CLOUD_NAME && API_KEY && API_SECRET)] *)
Definition cloudinaryConfigured (env : Env) : bool :=
  Js.truthy (env_value (CLOUDINARY_CLOUD_NAME env)) &&
  Js.truthy (env_value (CLOUDINARY_API_KEY env)) &&
  Js.truthy (env_value (CLOUDINARY_API_SECRET env)).

(** One element of [req.files] (multer, memory storage). *)
Record File : Type := {
  originalname : string;
  mimetype : string;
  size : N;
  buffer : list byte
}.

(** What Cloudinary answers to one [upload_stream]: [result.secure_url]
    or an error.  The oracle is asked with the number of uploads
    attempted before. *)
Inductive UploadResult : Type :=
  | UploadOk (secure_url : string)
  | UploadError (message : string).

Definition Cloudinary : Type := nat -> list byte -> string -> UploadResult.

Inductive LogLine : Type :=
  | ConsoleLog (text : string)
  | ConsoleError (text : string) (detail : string).

(** What the handlers act on: the table, the uploads sent to Cloudinary
    so far, and the console. *)
Record World : Type := {
  table : Table;
  cloud_requests : list (list byte * string);
  console : list LogLine
}.

Definition initial_world : World :=
  {| table := empty_table; cloud_requests := []; console := [] |}.

Definition console_log (text : string) : Async World unit :=
  update_world (fun w =>
    {| table := table w; cloud_requests := cloud_requests w;
       console := console w ++ [ConsoleLog text] |}).

Definition console_error (text detail : string) : Async World unit :=
  update_world (fun w =>
    {| table := table w; cloud_requests := cloud_requests w;
       console := console w ++ [ConsoleError text detail] |}).

(** A query on the table; a failing statement throws. *)
Definition sql {A} (q : Table -> option (A * Table)) : Async World A :=
  fun w =>
    match q (table w) with
    | Some (a, t) =>
        (Returned a,
         {| table := t; cloud_requests := cloud_requests w; console := console w |})
    | None => (Threw "query failed", w)
    end.

(** [uploadToCloudinary(buffer, mimetype)]: resolves with the secure URL
    or rejects with Cloudinary's error. *)
Definition uploadToCloudinary (cloud : Cloudinary) (buffer : list byte)
    (mimetype : string) : Async World string :=
  w <~ get_world ;;
  update_world (fun w =>
    {| table := table w;
       cloud_requests := cloud_requests w ++ [(buffer, mimetype)];
       console := console w |}) ;;;
  match cloud (length (cloud_requests w)) buffer mimetype with
  | UploadOk url => ret url
  | UploadError message => throw message
  end.

(** The request as the handlers read it: three fields of [req.body], and
    [req.files] ([undefined] when the request was not multipart). *)
Record Request : Type := {
  body_name : Js.value;
  body_note : Js.value;
  body_private : Js.value;
  files : option (list File)
}.

Inductive Body : Type :=
  | ErrorJson (error : string)
  | SubmittedJson (message : string) (id : Z) (name : string) (created_at : Z)
  | EntriesJson (entries : list PublicEntry)
  | AdminEntriesJson (entries : list Row)
  | UpdatedJson (id : Z) (name : string) (approved : bool)
  | DeletedJson (message : string).

Record Response : Type := {
  status : nat;
  body : Body
}.

Definition json (b : Body) : Response := {| status := 200; body := b |}.
Definition status_json (code : nat) (b : Body) : Response :=
  {| status := code; body := b |}.

(** [for (const file of req.files) { try { ... photos.push(url) } catch
    { console.error(...) } }], with [photos] as the accumulator. *)
Fixpoint upload_photos (cloud : Cloudinary) (fs : list File)
    (photos : list string) : Async World (list string) :=
  match fs with
  | [] => ret photos
  | file :: rest =>
      photos' <~ try_catch
        (console_log ("Uploading " +:+ originalname file +:+ " ("
                      +:+ show_Z (Z.of_N (size file)) +:+ " bytes)...") ;;;
         url <~ uploadToCloudinary cloud (buffer file) (mimetype file) ;;
         console_log ("Upload success: " +:+ url) ;;;
         ret (photos ++ [url]))
        (fun uploadError =>
           console_error "Photo upload failed:" uploadError ;;;
           ret photos) ;;
      upload_photos cloud rest photos'
  end.

(** The photo step of the handler: [const photos = []; if (req.files &&
    req.files.length > 0) { ... }], returning [photos]. *)
Definition collect_photos (env : Env) (cloud : Cloudinary)
    (files : option (list File)) : Async World (list string) :=
  match files with
  | Some ((_ :: _) as fs) =>
      console_log ("Processing " +:+ show_nat (length fs)
                   +:+ " file(s) for upload...") ;;;
      if negb (cloudinaryConfigured env) then
        console_error "Cannot upload photos - Cloudinary not configured!" "" ;;;
        ret []
      else upload_photos cloud fs []
  | _ => ret []
  end.

(** [app.post('/api/entries', handleUpload, async (req, res) => ...)] *)
Definition post_entries (env : Env) (cloud : Cloudinary) (now : Z)
    (req : Request) : Async World Response :=
  try_catch
    (let name := body_name req in
     let note := body_note req in
     if negb (Js.truthy name) || negb (Js.truthy note) then
       ret (status_json 400 (ErrorJson "Name and note are required"))
     else if Js.length_gt name 120 then
       ret (status_json 400 (ErrorJson "Name must be 120 characters or less"))
     else
       photos <~ collect_photos env cloud (files req) ;;
       let isPrivate := Js.strict_eq (body_private req) (Js.Str "true") in
       let approved := negb isPrivate in
       result <~ sql (insert_entry (Js.to_sql_text name) (Js.to_sql_text note)
                        photos approved now) ;;
       let message :=
         if isPrivate
         then "Thank you! Your private message has been sent to the couple."
         else "Thank you for signing the guestbook!" in
       ret (json (SubmittedJson message (r_id result) (r_name result)
                    (r_created_at result))))
    (fun error =>
       console_error "Error submitting entry:" error ;;;
       ret (status_json 500 (ErrorJson "Failed to submit entry"))).

(** [app.get('/api/entries', ...)] *)
Definition get_entries : Async World Response :=
  try_catch
    (entries <~ sql (fun t => Some (select_approved t, t)) ;;
     ret (json (EntriesJson entries)))
    (fun error =>
       console_error "Error fetching entries:" error ;;;
       ret (status_json 500 (ErrorJson "Failed to fetch entries"))).

(** [adminAuth]: the middleware in front of every admin route;
    [password] is [req.headers['x-admin-password']]. *)
Definition adminAuth (env : Env) (password : option string)
    (next : Async World Response) : Async World Response :=
  if negb (Js.strict_eq (env_value password) (env_value (ADMIN_PASSWORD env)))
  then ret (status_json 401 (ErrorJson "Unauthorized"))
  else next.

(** [app.get('/api/admin/entries', adminAuth, ...)] *)
Definition get_admin_entries (env : Env) (password : option string)
    : Async World Response :=
  adminAuth env password
    (try_catch
       (entries <~ sql (fun t => Some (select_all t, t)) ;;
        ret (json (AdminEntriesJson entries)))
       (fun error =>
          console_error "Error fetching entries:" error ;;;
          ret (status_json 500 (ErrorJson "Failed to fetch entries")))).

(** [app.patch('/api/admin/entries/:id', adminAuth, ...)]; [id] is the
    route parameter as the database reads it. *)
Definition patch_admin_entry (env : Env) (password : option string) (id : Z)
    (approved : Js.value) : Async World Response :=
  adminAuth env password
    (try_catch
       (match approved with
        | Js.Bool approved =>
            result <~ sql (fun t => Some (update_approved id approved t)) ;;
            match result with
            | [] => ret (status_json 404 (ErrorJson "Entry not found"))
            | r :: _ => ret (json (UpdatedJson (r_id r) (r_name r) (r_approved r)))
            end
        | _ => ret (status_json 400 (ErrorJson "approved must be a boolean"))
        end)
       (fun error =>
          console_error "Error updating entry:" error ;;;
          ret (status_json 500 (ErrorJson "Failed to update entry")))).

(** [app.delete('/api/admin/entries/:id', adminAuth, ...)] *)
Definition delete_admin_entry (env : Env) (password : option string) (id : Z)
    : Async World Response :=
  adminAuth env password
    (try_catch
       (result <~ sql (fun t => Some (delete_entry id t)) ;;
        match result with
        | [] => ret (status_json 404 (ErrorJson "Entry not found"))
        | _ :: _ => ret (json (DeletedJson "Entry deleted"))
        end)
       (fun error =>
          console_error "Error deleting entry:" error ;;;
          ret (status_json 500 (ErrorJson "Failed to delete entry")))).

(** The requests the server answers, and the worlds it can be in. *)
Inductive Call : Type :=
  | PostEntries (now : Z) (req : Request)
  | GetEntries
  | GetAdminEntries (password : option string)
  | PatchAdminEntry (password : option string) (id : Z) (approved : Js.value)
  | DeleteAdminEntry (password : option string) (id : Z).

Definition serve (env : Env) (cloud : Cloudinary) (c : Call)
    : Async World Response :=
  match c with
  | PostEntries now req => post_entries env cloud now req
  | GetEntries => get_entries
  | GetAdminEntries password => get_admin_entries env password
  | PatchAdminEntry password id approved =>
      patch_admin_entry env password id approved
  | DeleteAdminEntry password id => delete_admin_entry env password id
  end.

Inductive reachable (env : Env) (cloud : Cloudinary) : World -> Prop :=
  | reachable_start : reachable env cloud initial_world
  | reachable_serve (w : World) (c : Call) :
      reachable env cloud w -> reachable env cloud (serve env cloud c w).2.

(* ================================================================== *)
(** * The archival exporter: what both scripts share *)

(** [buffer.toString('base64')] *)
Definition base64_alphabet : string :=
  "ABCDEFGHIJKLMNOPQRSTUVWXYZabcdefghijklmnopqrstuvwxyz0123456789+/".

Definition base64_digit (n : N) : ascii :=
  match String.get (N.to_nat n) base64_alphabet with
  | Some c => c
  | None => "="%char
  end.

Fixpoint base64 (bytes : list byte) : string :=
  match bytes with
  | [] => ""
  | [a] =>
      let a := Byte.to_N a in
      String (base64_digit (N.shiftr a 2))
        (String (base64_digit (N.shiftl (N.land a 3) 4)) "==")
  | [a; b] =>
      let a := Byte.to_N a in
      let b := Byte.to_N b in
      String (base64_digit (N.shiftr a 2))
        (String (base64_digit (N.lor (N.shiftl (N.land a 3) 4) (N.shiftr b 4)))
           (String (base64_digit (N.shiftl (N.land b 15) 2)) "="))
  | a :: b :: c :: rest =>
      let a := Byte.to_N a in
      let b := Byte.to_N b in
      let c := Byte.to_N c in
      String (base64_digit (N.shiftr a 2))
        (String (base64_digit (N.lor (N.shiftl (N.land a 3) 4) (N.shiftr b 4)))
           (String (base64_digit (N.lor (N.shiftl (N.land b 15) 2) (N.shiftr c 6)))
              (String (base64_digit (N.land c 63)) (base64 rest))))
  end.

(** An entry object of the scripts: the selected columns (the URL list
    is [photos] in the export script and [photo_urls] in the saved JSON)
    and the [embeddedPhotos] the scripts add. *)
Record Entry : Type := {
  e_id : Z;
  e_name : string;
  e_note : string;
  e_approved : bool;
  e_created_at : Z;
  e_photos : list string;
  embeddedPhotos : list string
}.

(** One object of [guestbook-data.json]. *)
Record JsonEntry : Type := {
  j_id : Z;
  j_name : string;
  j_note : string;
  j_approved : bool;
  j_created_at : Z;
  j_photo_urls : list string
}.

(** What the page templates take from outside the scripts: the two
    [toLocaleDateString] calls, and the static text of the [<style>] and
    [<script>] elements. *)
Record Template : Type := {
  formatDate : Z -> string;
  exportDate : string;
  stylesheet : string;
  lightbox_script : string
}.

(** [escapeHtml(str)]: four global replacements, in this order. *)
Definition escapeHtml (str : string) : string :=
  replace_all (Ascii.ascii_of_nat 34) "&quot;"
    (replace_all ">" "&gt;"
       (replace_all "<" "&lt;"
          (replace_all "&" "&amp;" str))).

(** One [<img>] of [renderEntry]. *)
Definition img (src : string) : string :=
  "<img src=" +:+ quot +:+ src +:+ quot +:+ " class=" +:+ quot +:+ "entry-photo" +:+ quot +:+ " onclick=" +:+ quot +:+ "openLightbox(this.src)" +:+ quot +:+ " />".

(** [photos ? `<div class="entry-photos">${photos}</div>` : ''] *)
Definition photos_block (photos : string) : string :=
  if negb (String.eqb photos "")
  then "<div class=" +:+ quot +:+ "entry-photos" +:+ quot +:+ ">" +:+ photos +:+ "</div>"
  else "".

(** [renderEntry(entry)] *)
Definition renderEntry (tpl : Template) (entry : Entry) : string :=
  let photos := join "" (img <$> embeddedPhotos entry) in
  "
    <div class=" +:+ quot +:+ "entry" +:+ quot +:+ ">
      <div class=" +:+ quot +:+ "entry-header" +:+ quot +:+ ">
        <h3 class=" +:+ quot +:+ "entry-name" +:+ quot +:+ ">"
  +:+ escapeHtml (e_name entry) +:+
  "</h3>
        <time class=" +:+ quot +:+ "entry-date" +:+ quot +:+ ">"
  +:+ formatDate tpl (e_created_at entry) +:+
  "</time>
      </div>
      <p class=" +:+ quot +:+ "entry-note" +:+ quot +:+ ">"
  +:+ escapeHtml (e_note entry) +:+
  "</p>
      "
  +:+ photos_block photos +:+
  "
    </div>".

(** [allEntries.reduce((n, e) => n + e.embeddedPhotos.length, 0)] *)
Definition photoCount (allEntries : list Entry) : nat :=
  foldl (fun n e => (n + length (embeddedPhotos e))%nat) 0%nat allEntries.

(** [buildHTML(allEntries, title)], with the markup of
    [scripts/generate-html.js]; the export script's copy differs in blank
    lines and in the layout of the style sheet only. *)
Definition buildHTML (tpl : Template) (allEntries : list Entry)
    (title : string) : string :=
  let entriesHTML := join "
" (renderEntry tpl <$> allEntries) in
  "<!DOCTYPE html>
<html lang=" +:+ quot +:+ "en" +:+ quot +:+ ">
<head>
  <meta charset=" +:+ quot +:+ "UTF-8" +:+ quot +:+ ">
  <meta name=" +:+ quot +:+ "viewport" +:+ quot +:+ " content=" +:+ quot +:+ "width=device-width, initial-scale=1.0" +:+ quot +:+ ">
  <title>"
  +:+ escapeHtml title +:+
  "</title>
  <style>"
  +:+ stylesheet tpl +:+
  "</style>
</head>
<body>
  <div class=" +:+ quot +:+ "container" +:+ quot +:+ ">
    <header>
      <h1>Wedding Guestbook</h1>
      <p class=" +:+ quot +:+ "subtitle" +:+ quot +:+ ">A Time Capsule of Love &amp; Well Wishes</p>
      <div class=" +:+ quot +:+ "stats" +:+ quot +:+ ">
        <div><span>"
  +:+ show_nat (length allEntries) +:+
  "</span> messages</div>
        <div><span>"
  +:+ show_nat (photoCount allEntries) +:+
  "</span> photos</div>
      </div>
    </header>
    <h2 class=" +:+ quot +:+ "section-heading" +:+ quot +:+ ">Messages</h2>
    "
  +:+ entriesHTML +:+
  "
    <footer>
      Archived on "
  +:+ exportDate tpl +:+
  "<br>
      Made with love.
    </footer>
  </div>
  <div class=" +:+ quot +:+ "lightbox" +:+ quot +:+ " id=" +:+ quot +:+ "lightbox" +:+ quot +:+ " onclick=" +:+ quot +:+ "closeLightbox()" +:+ quot +:+ ">
    <img id=" +:+ quot +:+ "lightbox-img" +:+ quot +:+ " src=" +:+ quot +:+ quot +:+ " alt=" +:+ quot +:+ "Full size photo" +:+ quot +:+ " />
  </div>
  <script>"
  +:+ lightbox_script tpl +:+
  "</script>
</body>
</html>".

(** One element of the [variants] arrays. *)
Record Variant : Type := {
  file : string;
  data : list Entry;
  title : string
}.

(** The [backup/] directory: [photos/], [guestbook-data.json] (as the
    array it holds) and the HTML documents. *)
Record Disk : Type := {
  photos_dir : gmap string (list byte);
  json_file : option (list JsonEntry);
  html_files : gmap string string
}.

Definition empty_disk : Disk :=
  {| photos_dir := ∅; json_file := None; html_files := ∅ |}.

(** What a run of a script acts on: the disk, the URLs fetched so far,
    the counter [totalPhotos] and the console. *)
Record Run : Type := {
  disk : Disk;
  requests : list string;
  totalPhotos : nat;
  output : list LogLine
}.

Definition fresh_run (d : Disk) : Run :=
  {| disk := d; requests := []; totalPhotos := 0; output := [] |}.

Definition print (text : string) : Async Run unit :=
  update_world (fun w =>
    {| disk := disk w; requests := requests w; totalPhotos := totalPhotos w;
       output := output w ++ [ConsoleLog text] |}).

Definition print_error (text : string) : Async Run unit :=
  update_world (fun w =>
    {| disk := disk w; requests := requests w; totalPhotos := totalPhotos w;
       output := output w ++ [ConsoleError text ""] |}).

Definition on_disk (f : Disk -> Disk) : Async Run unit :=
  update_world (fun w =>
    {| disk := f (disk w); requests := requests w;
       totalPhotos := totalPhotos w; output := output w |}).

(** [fs.writeFileSync(path.join(BACKUP_DIR, v.file), html, 'utf-8')] *)
Definition write_html (name html : string) : Async Run unit :=
  on_disk (fun d =>
    {| photos_dir := photos_dir d; json_file := json_file d;
       html_files := <[name := html]> (html_files d) |}).

(** [for (const v of variants) { ... buildHTML(v.data, v.title) ... }] *)
Fixpoint write_variants (tpl : Template) (vs : list Variant) : Async Run unit :=
  match vs with
  | [] => ret tt
  | v :: rest =>
      write_html (file v) (buildHTML tpl (data v) (title v)) ;;;
      write_variants tpl rest
  end.

(* ================================================================== *)
(** * The export script: from the database to [backup/] *)

(** The response of [fetch(url)], as far as [downloadImage] reads it. *)
Record HttpResponse : Type := {
  ok : bool;
  http_status : nat;
  content_type : option string;
  payload : list byte
}.

(** [fetch] resolves with a response or rejects; the oracle is asked with
    the number of requests made before. *)
Inductive FetchResult : Type :=
  | Resolved (res : HttpResponse)
  | Rejected (message : string).

Definition Network : Type := nat -> string -> FetchResult.

(** Lookup of a key among the keys an object literal is written with
    (what an object inherits, such as [constructor], is no media type and
    is left out). *)
Fixpoint property (table : list (string * string)) (key : string)
    : option string :=
  match table with
  | [] => None
  | (k, v) :: rest => if String.eqb k key then Some v else property rest key
  end.

Module ExportScript.

Definition fetch (net : Network) (url : string) : Async Run HttpResponse :=
  w <~ get_world ;;
  update_world (fun w =>
    {| disk := disk w; requests := requests w ++ [url];
       totalPhotos := totalPhotos w; output := output w |}) ;;;
  match net (length (requests w)) url with
  | Resolved res => ret res
  | Rejected message => throw message
  end.

(** [fs.writeFileSync(path.join(PHOTOS_DIR, filename), buffer)] *)
Definition write_photo (filename : string) (buffer : list byte)
    : Async Run unit :=
  on_disk (fun d =>
    {| photos_dir := <[filename := buffer]> (photos_dir d);
       json_file := json_file d; html_files := html_files d |}).

(** The object literal that maps a content type to an extension. *)
Definition extensions : list (string * string) :=
  [("image/jpeg", ".jpg"); ("image/png", ".png");
   ("image/gif", ".gif"); ("image/webp", ".webp")].

(** [{ dataUri, filename }] *)
Record Download : Type := {
  dataUri : string;
  filename : string
}.

(** [downloadImage(url, entryId, photoIndex)]: the download, or [null]
    (here [None]) after logging when anything in the [try] block threw. *)
Definition downloadImage (net : Network) (url : string) (entryId : Z)
    (photoIndex : nat) : Async Run (option Download) :=
  try_catch
    (res <~ fetch net url ;;
     if negb (ok res) then throw ("HTTP " +:+ show_nat (http_status res))
     else
       let buffer := payload res in
       let contentType :=
         match content_type res with
         | Some ct => if Js.truthy (Js.Str ct) then ct else "image/jpeg"
         | None => "image/jpeg"
         end in
       let ext :=
         match property extensions contentType with
         | Some ext => ext
         | None => ".jpg"
         end in
       let filename :=
         "entry-" +:+ show_Z entryId +:+ "-photo-" +:+ show_nat photoIndex +:+ ext in
       write_photo filename buffer ;;;
       let base64 := base64 buffer in
       ret (Some {| dataUri := "data:" +:+ contentType +:+ ";base64," +:+ base64;
                    filename := filename |}))
    (fun message =>
       print_error ("  Failed to download: " +:+ url +:+ " — " +:+ message) ;;;
       ret None).

(** [totalPhotos++] *)
Definition count_photo : Async Run nat :=
  update_world (fun w =>
    {| disk := disk w; requests := requests w;
       totalPhotos := S (totalPhotos w); output := output w |}) ;;;
  w <~ get_world ;;
  ret (totalPhotos w).

(** [for (let i = 0; i < entry.photos.length; i++) { ... }]: [photos]
    are the URLs from index [i] on, [embedded] the array built so far. *)
Fixpoint download_photos (net : Network) (entryId : Z) (i : nat)
    (photos : list string) (embedded : list string)
    : Async Run (list string) :=
  match photos with
  | [] => ret embedded
  | url :: rest =>
      n <~ count_photo ;;
      print ("  Downloading photo " +:+ show_nat n +:+ " (entry #"
             +:+ show_Z entryId +:+ ")...") ;;;
      result <~ downloadImage net url entryId (i + 1) ;;
      match result with
      | Some r =>
          print (" saved as " +:+ filename r) ;;;
          download_photos net entryId (S i) rest (embedded ++ [dataUri r])
      | None =>
          print " FAILED" ;;;
          download_photos net entryId (S i) rest embedded
      end
  end.

(** [for (const entry of entries) { ... entry.embeddedPhotos = ... }] *)
Fixpoint embed_photos (net : Network) (entries : list Row)
    : Async Run (list Entry) :=
  match entries with
  | [] => ret []
  | entry :: rest =>
      embedded <~
        match r_photos entry with
        | [] => ret []
        | _ :: _ => download_photos net (r_id entry) 0 (r_photos entry) []
        end ;;
      rest' <~ embed_photos net rest ;;
      ret ({| e_id := r_id entry; e_name := r_name entry;
              e_note := r_note entry; e_approved := r_approved entry;
              e_created_at := r_created_at entry;
              e_photos := r_photos entry;
              embeddedPhotos := embedded |} :: rest')
  end.

(** [entries.map(e => ({ id: e.id, ..., photo_urls: e.photos || [] }))] *)
Definition jsonData (entries : list Entry) : list JsonEntry :=
  (fun e => {| j_id := e_id e; j_name := e_name e; j_note := e_note e;
               j_approved := e_approved e; j_created_at := e_created_at e;
               j_photo_urls := e_photos e |}) <$> entries.

Definition write_json (entries : list JsonEntry) : Async Run unit :=
  on_disk (fun d =>
    {| photos_dir := photos_dir d; json_file := Some entries;
       html_files := html_files d |}).

(** The four variants of [main]. *)
Definition variants (entries : list Entry) : list Variant :=
  let cleanEntries := drop 3 entries in
  let publicEntries := filter (fun e => e_approved e = true) entries in
  let cleanPublicEntries := filter (fun e => e_approved e = true) cleanEntries in
  [ {| file := "time-capsule-full-with-tests.html"; data := entries;
       title := "Wedding Guestbook — Complete Archive (incl. test posts)" |};
    {| file := "time-capsule-public-with-tests.html"; data := publicEntries;
       title := "Wedding Guestbook — Public (incl. test posts)" |};
    {| file := "time-capsule-full.html"; data := cleanEntries;
       title := "Wedding Guestbook — Complete Archive" |};
    {| file := "time-capsule-public.html"; data := cleanPublicEntries;
       title := "Wedding Guestbook" |} ].

(** [main()]: the table is the database the script connects to.  Of the
    console output, the line that prints the path of the JSON file and the
    rows of the summary are left out. *)
Definition main (tpl : Template) (net : Network) (db : Table)
    : Async Run unit :=
  print "Fetching all guestbook entries...
" ;;;
  let rows := select_all_asc db in
  print ("Found " +:+ show_nat (length rows) +:+ " entries.
") ;;;
  entries <~ embed_photos net rows ;;
  w <~ get_world ;;
  print ("
Downloaded " +:+ show_nat (totalPhotos w) +:+ " photos to backup/photos/") ;;;
  write_json (jsonData entries) ;;;
  print "
Generating HTML files..." ;;;
  write_variants tpl (variants entries) ;;;
  print "
--- Backup Summary ---" ;;;
  print "
Done! Your physical backup is in the backup/ folder.".

End ExportScript.

(* ================================================================== *)
(** * [scripts/generate-html.js]: from [backup/] to the HTML documents *)

Module GenerateHtml.

(** The extensions probed for a saved photo, in this order. *)
Definition candidates : list string := [".jpg"; ".png"; ".gif"; ".webp"].

(** [fs.existsSync(p)] for a file of [backup/photos/]. *)
Definition existsSync (d : Disk) (p : string) : bool :=
  match photos_dir d !! p with
  | Some _ => true
  | None => false
  end.

(** [path.extname(p)] for a file name: from its last dot on, a dot that
    starts the name apart. *)
Fixpoint from_last_dot (p : string) : option string :=
  match p with
  | EmptyString => None
  | String c rest =>
      match from_last_dot rest with
      | Some ext => Some ext
      | None => if Ascii.eqb c "." then Some p else None
      end
  end.

Definition extname (p : string) : string :=
  match p with
  | EmptyString => ""
  | String _ rest => default "" (from_last_dot rest)
  end.

(** [str.slice(1)] *)
Definition slice1 (s : string) : string :=
  match s with
  | EmptyString => ""
  | String _ rest => rest
  end.

(** The body of the inner loop for photo [i] of the entry [id]: the data
    URI of the saved file, when one of the candidate names exists. *)
Definition load_photo (d : Disk) (id : Z) (i : nat) : option string :=
  let baseName := "entry-" +:+ show_Z id +:+ "-photo-" +:+ show_nat (i + 1) in
  let match_ := List.find (existsSync d) ((fun ext => baseName +:+ ext) <$> candidates) in
  match match_ with
  | Some p =>
      let buffer := default [] (photos_dir d !! p) in
      let ext := slice1 (extname p) in
      let mime := if String.eqb ext "jpg" then "image/jpeg" else "image/" +:+ ext in
      Some ("data:" +:+ mime +:+ ";base64," +:+ base64 buffer)
  | None => None
  end.

(** [for (let i = 0; i < entry.photo_urls.length; i++) { ... }] *)
Definition load_photos (d : Disk) (entry : JsonEntry) : list string :=
  omap (load_photo d (j_id entry)) (seq 0 (length (j_photo_urls entry))).

Definition load_entry (d : Disk) (entry : JsonEntry) : Entry :=
  {| e_id := j_id entry; e_name := j_name entry; e_note := j_note entry;
     e_approved := j_approved entry; e_created_at := j_created_at entry;
     e_photos := j_photo_urls entry;
     embeddedPhotos := load_photos d entry |}.

(** [new Set([entries[0].id, entries[1].id, entries[2].id])]: reading
    [.id] of a missing element is a TypeError. *)
Definition TEST_IDS (entries : list Entry) : option (list Z) :=
  match entries with
  | a :: b :: c :: _ => Some [e_id a; e_id b; e_id c]
  | _ => None
  end.

(** [entries.filter(e => !TEST_IDS.has(e.id))] *)
Definition cleanEntries (test_ids : list Z) (entries : list Entry) : list Entry :=
  filter (fun e => e_id e ∉ test_ids) entries.

(** The three variants of this script. *)
Definition variants (test_ids : list Z) (entries : list Entry) : list Variant :=
  let cleanEntries := cleanEntries test_ids entries in
  [ {| file := "time-capsule-all-with-tests.html"; data := entries;
       title := "Wedding Guestbook — Complete Archive (incl. test posts)" |};
    {| file := "time-capsule-full.html"; data := cleanEntries;
       title := "Wedding Guestbook — Complete Archive" |};
    {| file := "time-capsule-public.html";
       data := filter (fun e => e_approved e = true) cleanEntries;
       title := "Wedding Guestbook" |} ].

(** The script, top to bottom: reading the JSON throws when the file is
    missing; the line printed per variant (it reports the file size) is
    left out. *)
Definition generate_html (tpl : Template) : Async Run unit :=
  w <~ get_world ;;
  match json_file (disk w) with
  | None => throw "ENOENT: no such file or directory"
  | Some saved =>
      let entries := load_entry (disk w) <$> saved in
      print ("Loaded " +:+ show_nat (length entries) +:+ " entries from JSON.") ;;;
      match TEST_IDS entries with
      | None => throw "TypeError: Cannot read properties of undefined (reading 'id')"
      | Some test_ids =>
          write_variants tpl (variants test_ids entries) ;;;
          print "
Done!"
      end
  end.

End GenerateHtml.

(* ================================================================== *)
(** * What the uploads of one submission amount to *)

(** The answers of Cloudinary to the uploads of [fs], the first of which
    is upload number [k]. *)
Fixpoint upload_results (cloud : Cloudinary) (k : nat) (fs : list File)
    : list UploadResult :=
  match fs with
  | [] => []
  | file :: rest =>
      cloud k (buffer file) (mimetype file) :: upload_results cloud (S k) rest
  end.

(** The URLs of the uploads that succeeded, in order. *)
Definition successful_urls (results : list UploadResult) : list string :=
  omap (fun r => match r with UploadOk url => Some url | UploadError _ => None end)
       results.


(** The console lines of the upload loop. *)
Fixpoint upload_lines (cloud : Cloudinary) (k : nat) (fs : list File)
    : list LogLine :=
  match fs with
  | [] => []
  | file :: rest =>
      ConsoleLog ("Uploading " +:+ originalname file +:+ " ("
                  +:+ show_Z (Z.of_N (size file)) +:+ " bytes)...")
      :: match cloud k (buffer file) (mimetype file) with
         | UploadOk url => ConsoleLog ("Upload success: " +:+ url)
         | UploadError m => ConsoleError "Photo upload failed:" m
         end
      :: upload_lines cloud (S k) rest
  end.

(** The photo step of a submission whose first upload would be number
    [k]: the answers of Cloudinary it gets, what it sends, and what it
    prints.  Without files, or without the Cloudinary credentials,
    nothing is sent. *)
Definition photo_results (env : Env) (cloud : Cloudinary) (k : nat)
    (files : option (list File)) : list UploadResult :=
  match files with
  | Some ((_ :: _) as fs) =>
      if cloudinaryConfigured env then upload_results cloud k fs else []
  | _ => []
  end.

Definition photo_requests (env : Env) (files : option (list File))
    : list (list byte * string) :=
  match files with
  | Some ((_ :: _) as fs) =>
      if cloudinaryConfigured env
      then (fun f => (buffer f, mimetype f)) <$> fs
      else []
  | _ => []
  end.

Definition photo_lines (env : Env) (cloud : Cloudinary) (k : nat)
    (files : option (list File)) : list LogLine :=
  match files with
  | Some ((_ :: _) as fs) =>
      ConsoleLog ("Processing " +:+ show_nat (length fs) +:+ " file(s) for upload...")
      :: (if cloudinaryConfigured env then upload_lines cloud k fs
          else [ConsoleError "Cannot upload photos - Cloudinary not configured!" ""])
  | _ => []
  end.

(** [req.body.private === 'true'] *)
Definition isPrivate (req : Request) : bool :=
  Js.strict_eq (body_private req) (Js.Str "true").


(** A text submission: [name] and [note] are strings. *)
Definition text_request (name note : string) (private : Js.value)
    (files : option (list File)) : Request :=
  {| body_name := Js.Str name; body_note := Js.Str note;
     body_private := private; files := files |}.

(** A field that is absent or the empty string. *)
Definition missing_or_empty (v : Js.value) : bool :=
  match v with
  | Js.Undefined => true
  | Js.Str s => String.eqb s ""
  | _ => false
  end.

(** Ids are distinct and below the next value of the sequence. *)
Definition ids_fresh (t : Table) : Prop :=
  NoDup (r_id <$> rows t) /\ Forall (fun r => r_id r < next_id t) (rows t).

(* ================================================================== *)
(** * What escaping amounts to *)

(** The characters that open or close a tag or an attribute value. *)
Definition markup_characters : list ascii :=
  ["<"%char; ">"%char; Ascii.ascii_of_nat 34].

(** The entity that stands for one character. *)
Definition entity (c : ascii) : string :=
  if Ascii.eqb c "&" then "&amp;"
  else if Ascii.eqb c "<" then "&lt;"
  else if Ascii.eqb c ">" then "&gt;"
  else if Ascii.eqb c (Ascii.ascii_of_nat 34) then "&quot;"
  else String c "".

(** Every character replaced by its entity, in one pass. *)
Fixpoint escape_each (str : string) : string :=
  match str with
  | EmptyString => EmptyString
  | String c rest => entity c +:+ escape_each rest
  end.

(** The entry with its name and its note emptied. *)
Definition without_text (entry : Entry) : Entry :=
  {| e_id := e_id entry; e_name := ""; e_note := "";
     e_approved := e_approved entry; e_created_at := e_created_at entry;
     e_photos := e_photos entry; embeddedPhotos := embeddedPhotos entry |}.

(** The entry with another note. *)
Definition with_note (note : string) (entry : Entry) : Entry :=
  {| e_id := e_id entry; e_name := e_name entry; e_note := note;
     e_approved := e_approved entry; e_created_at := e_created_at entry;
     e_photos := e_photos entry; embeddedPhotos := embeddedPhotos entry |}.

(* ================================================================== *)
(** * What the downloads of one export run amount to *)

(** [res.headers.get('content-type') || 'image/jpeg'] *)
Definition content_type_of (res : HttpResponse) : string :=
  match content_type res with
  | Some ct => if Js.truthy (Js.Str ct) then ct else "image/jpeg"
  | None => "image/jpeg"
  end.

(** The extension [downloadImage] saves a content type under. *)
Definition extension_of (contentType : string) : string :=
  match property ExportScript.extensions contentType with
  | Some ext => ext
  | None => ".jpg"
  end.

(** [entry-<id>-photo-<n>], the name both scripts build. *)
Definition base_name (id : Z) (n : nat) : string :=
  "entry-" +:+ show_Z id +:+ "-photo-" +:+ show_nat n.

(** A fetch fails when it rejects or answers with a status that is not ok. *)
Definition fails (r : FetchResult) : bool :=
  match r with
  | Resolved res => negb (ok res)
  | Rejected _ => true
  end.

(** The data URI the export script embeds for a fetch that succeeded. *)
Definition embedded_uri (r : FetchResult) : option string :=
  match r with
  | Resolved res =>
      if ok res
      then Some ("data:" +:+ content_type_of res +:+ ";base64," +:+ base64 (payload res))
      else None
  | Rejected _ => None
  end.

(** The answers to the fetches of [urls], the first of which is request
    number [k] of the run. *)
Fixpoint fetch_results (net : Network) (k : nat) (urls : list string)
    : list FetchResult :=
  match urls with
  | [] => []
  | url :: rest => net k url :: fetch_results net (S k) rest
  end.

(** The entries of a run whose first fetch is request number [k]. *)
Fixpoint embedded_entries (net : Network) (k : nat) (entries : list Row)
    : list Entry :=
  match entries with
  | [] => []
  | entry :: rest =>
      {| e_id := r_id entry; e_name := r_name entry; e_note := r_note entry;
         e_approved := r_approved entry; e_created_at := r_created_at entry;
         e_photos := r_photos entry;
         embeddedPhotos := omap embedded_uri (fetch_results net k (r_photos entry)) |}
      :: embedded_entries net (k + length (r_photos entry)) rest
  end.


(** The documents on disk after the variants [vs] are written. *)
Definition with_variants (tpl : Template) (vs : list Variant)
    (html : gmap string string) : gmap string string :=
  foldl (fun m v => <[file v := buildHTML tpl (data v) (title v)]> m) html vs.

(** The candidates [generate-html.js] probes before it probes [ext]. *)
Fixpoint probed_before (ext : string) (candidates : list string) : list string :=
  match candidates with
  | [] => []
  | c :: rest => if String.eqb c ext then [] else c :: probed_before ext rest
  end.

(** The media type [generate-html.js] writes for a file saved as [ext]. *)
Definition mime_of_extension (ext : string) : string :=
  if String.eqb (GenerateHtml.slice1 ext) "jpg" then "image/jpeg"
  else "image/" +:+ GenerateHtml.slice1 ext.

(* ================================================================== *)
(** * Sample data *)

Definition sample_env : Env :=
  {| CLOUDINARY_CLOUD_NAME := Some "demo";
     CLOUDINARY_API_KEY := Some "key";
     CLOUDINARY_API_SECRET := Some "secret";
     ADMIN_PASSWORD := Some "hunter2" |}.

(** A Cloudinary that refuses every second upload. *)
Definition sample_cloud : Cloudinary :=
  fun k _ _ =>
    if Nat.even k then UploadOk ("https://res.cloudinary.com/demo/" +:+ show_nat k)
    else UploadError "timeout".

Definition sample_file (name : string) : File :=
  {| originalname := name; mimetype := "image/png"; size := 3;
     buffer := [x00; x01; x02]%byte |}.

(** After a private and a public submission. *)
Definition sample_world : World :=
  (serve sample_env sample_cloud
     (PostEntries 2000 (text_request "Alex & Jo" "Congrats!<3" Js.Undefined None))
     (serve sample_env sample_cloud
        (PostEntries 1000 (text_request "Sam" "For you two only" (Js.Str "true") None))
        initial_world).2).2.

Definition sample_template : Template :=
  {| formatDate := fun t => "day " +:+ show_Z t;
     exportDate := "November 2, 2026";
     stylesheet := "body { margin: 0; }";
     lightbox_script := "function openLightbox(src) {}" |}.

(** Four rows; the second has three photos. *)
Definition sample_row (id : Z) (name : string) (photos : list string)
    (approved : bool) : Row :=
  {| r_id := id; r_name := name; r_note := "Best wishes"; r_photos := photos;
     r_approved := approved; r_created_at := 100 * id |}.

Definition sample_table : Table :=
  {| rows := [ sample_row 4 "Dana" [] true;
               sample_row 2 "Bo" ["http://a/1"; "http://a/2"; "http://a/3"] true;
               sample_row 1 "Ann" ["http://a/0"] false;
               sample_row 5 "Eli" [] false ];
     next_id := 6 |}.

(** A network on which request number 2 of a run is refused and every
    other one is answered with a PNG of one byte. *)
Definition sample_network : Network :=
  fun k url =>
    if Nat.eqb k 2 then Rejected "ECONNRESET"
    else Resolved {| ok := true; http_status := 200;
                     content_type := Some "image/png";
                     payload := [default x00 (Byte.of_N (N.of_nat k))] |}.




Definition sample_saved : list JsonEntry :=
  ExportScript.jsonData
    (embedded_entries sample_network 0 (select_all_asc sample_table)).

(* ================================================================== *)
(** * Histories of the server, and what the moderation routes amount to *)

(** The worlds the server can get to from a given one. *)
Inductive steps (env : Env) (cloud : Cloudinary) : World -> World -> Prop :=
  | steps_none (w : World) : steps env cloud w w
  | steps_serve (w w' : World) (c : Call) :
      steps env cloud w w' -> steps env cloud w (serve env cloud c w').2.

(** The rows after [UPDATE ... SET approved = ... WHERE id = ...]. *)
Definition moderated (id : Z) (approved : bool) (l : list Row) : list Row :=
  (fun r => if bool_decide (r_id r = id) then set_approved approved r else r) <$> l.

(** The object the export script saves for a row. *)
Definition row_json (r : Row) : JsonEntry :=
  {| j_id := r_id r; j_name := r_name r; j_note := r_note r;
     j_approved := r_approved r; j_created_at := r_created_at r;
     j_photo_urls := r_photos r |}.

(** The documents that are meant for the public. *)
Definition public_documents : list string :=
  ["time-capsule-public-with-tests.html"; "time-capsule-public.html"].

(** The characters [escapeHtml] replaces. *)
Definition escaped_characters : list ascii :=
  ["&"%char; "<"%char; ">"%char; Ascii.ascii_of_nat 34].

(** The sample world after the private entry is deleted and one more
    entry is submitted. *)
Definition later_world : World :=
  (serve sample_env sample_cloud
     (PostEntries 3000 (text_request "Kim" "Photos!" Js.Undefined
                          (Some [sample_file "a.png"; sample_file "b.png"])))
     (serve sample_env sample_cloud (DeleteAdminEntry (Some "hunter2") 1)
        sample_world).2).2.

(* ================================================================== *)
(** * Proofs: the monad *)

(** Runs the monad's operations on the world at hand. *)
Ltac step_async :=
  cbv beta iota zeta delta
    [try_catch bind print print_error on_disk get_world update_world ret throw
     ExportScript.count_photo ExportScript.write_json];
  cbn [requests disk totalPhotos output].

Lemma bind_returned {W A B} (c : Async W A) (k : A -> Async W B) w a w' :
  c w = (Returned a, w') -> bind c k w = k a w'.
Proof. intros H. unfold bind. by rewrite H. Qed.


(* ================================================================== *)
(** * Proofs: the upload loop *)

Lemma upload_photos_spec cloud fs : forall photos w,
  upload_photos cloud fs photos w =
    (Returned (photos ++ successful_urls (upload_results cloud (length (cloud_requests w)) fs)),
     {| table := table w;
        cloud_requests := cloud_requests w ++ ((fun f => (buffer f, mimetype f)) <$> fs);
        console := console w ++ upload_lines cloud (length (cloud_requests w)) fs |}).
Proof.
  induction fs as [|file rest IH]; intros photos [t reqs out].
  - cbn. by rewrite !app_nil_r.
  - cbn [upload_photos].
    unfold bind at 1, try_catch, bind, console_log, uploadToCloudinary,
      console_error, update_world, get_world, ret, throw. cbn.
    destruct (cloud (length reqs) (buffer file) (mimetype file)) as [url|m] eqn:E; cbn.
    + rewrite IH. cbn. rewrite length_app. cbn.
      replace (length reqs + 1)%nat with (S (length reqs)) by lia.
      unfold successful_urls. cbn.
      by rewrite <- !app_assoc.
    + rewrite IH. cbn. rewrite length_app. cbn.
      replace (length reqs + 1)%nat with (S (length reqs)) by lia.
      unfold successful_urls. cbn.
      by rewrite <- !app_assoc.
Qed.

(* ================================================================== *)
(** * Proofs: the submission handler *)





Lemma collect_photos_spec env cloud fs w :
  collect_photos env cloud fs w =
    (Returned (successful_urls (photo_results env cloud (length (cloud_requests w)) fs)),
     {| table := table w;
        cloud_requests := cloud_requests w ++ photo_requests env fs;
        console := console w ++ photo_lines env cloud (length (cloud_requests w)) fs |}).
Proof.
  destruct w as [t reqs out].
  unfold collect_photos, photo_results, photo_requests, photo_lines.
  destruct fs as [[|file rest]|]; cbn [table cloud_requests console].
  - unfold ret. by rewrite !app_nil_r.
  - destruct (cloudinaryConfigured env); cbn [negb].
    + unfold bind, console_log, update_world. rewrite upload_photos_spec.
      cbn. by rewrite <- !app_assoc.
    + unfold bind, console_log, console_error, update_world, ret. cbn.
      by rewrite !app_nil_r, <- !app_assoc.
  - unfold ret. by rewrite !app_nil_r.
Qed.


Lemma missing_or_empty_falsy (v : Js.value) :
  missing_or_empty v = true -> Js.truthy v = false.
Proof. destruct v; cbn; try done. by intros ->. Qed.

(** A submission the validation refuses is answered with 400 before
    anything is done: the world is the one it started in. *)
Lemma post_entries_refused env cloud now req w :
  Js.truthy (body_name req) = false \/ Js.truthy (body_note req) = false
  \/ Js.length_gt (body_name req) 120 = true ->
  exists error,
    post_entries env cloud now req w
    = (Returned (status_json 400 (ErrorJson error)), w).
Proof.
  intros H. unfold post_entries, try_catch, ret.
  destruct (Js.truthy (body_name req)) eqn:Hn; cbn [negb orb]; [|by eexists].
  destruct (Js.truthy (body_note req)) eqn:Ht; cbn [negb orb]; [|by eexists].
  destruct H as [?|[?| ->]]; try done. by eexists.
Qed.

(** Whatever the request, the handler leaves the table as it was or
    inserts one row. *)
Lemma post_entries_table env cloud now req w o w' :
  post_entries env cloud now req w = (o, w') ->
  table w' = table w
  \/ exists name note photos approved r,
       insert_entry (Some name) (Some note) photos approved now (table w)
       = Some (r, table w').
Proof.
  unfold post_entries, try_catch.
  destruct (negb (Js.truthy (body_name req)) || negb (Js.truthy (body_note req))).
  { intros [= <- <-]. by left. }
  destruct (Js.length_gt (body_name req) 120).
  { intros [= <- <-]. by left. }
  unfold bind at 1. rewrite collect_photos_spec.
  unfold bind, sql, ret, console_error, update_world. cbn [table].
  destruct (insert_entry _ _ _ _ _ _) as [[r t']|] eqn:E; cbn.
  - intros [= <- <-]. right. cbn.
    destruct (Js.to_sql_text (body_name req)) as [name|]; [|done].
    destruct (Js.to_sql_text (body_note req)) as [note|]; [|done].
    do 5 eexists. exact E.
  - intros [= <- <-]. by left.
Qed.

(* ================================================================== *)
(** * Proofs: the table *)

Lemma ids_fresh_empty : ids_fresh empty_table.
Proof. split; constructor. Qed.

Lemma ids_fresh_insert name note photos approved now t r t' :
  insert_entry name note photos approved now t = Some (r, t') ->
  ids_fresh t -> ids_fresh t'.
Proof.
  unfold insert_entry. intros H [Hnd Hlt].
  destruct name as [name|], note as [note|]; try done.
  destruct (bool_decide _); [|done]. injection H as <- <-.
  split; cbn.
  - rewrite fmap_app. cbn. apply NoDup_app. split_and!; [done| |apply NoDup_singleton].
    intros x Hx ->%list_elem_of_singleton.
    apply list_elem_of_fmap in Hx as [r [Hr Hin]].
    rewrite Forall_forall in Hlt. specialize (Hlt r Hin). lia.
  - apply Forall_app. split.
    + eapply Forall_impl; [exact Hlt|]. cbn. intros; lia.
    + constructor; [cbn; lia|constructor].
Qed.

Lemma update_approved_ids id approved t :
  r_id <$> rows (update_approved id approved t).2 = r_id <$> rows t.
Proof.
  cbn. rewrite <- list_fmap_compose. apply list_fmap_ext.
  intros i r _. cbn. by destruct (bool_decide _).
Qed.

Lemma ids_fresh_update id approved t :
  ids_fresh t -> ids_fresh (update_approved id approved t).2.
Proof.
  intros [Hnd Hlt]. split.
  - by rewrite update_approved_ids.
  - cbn. rewrite Forall_fmap. eapply Forall_impl; [exact Hlt|].
    intros r Hr. cbn. by destruct (bool_decide _).
Qed.

Lemma ids_fresh_delete id t :
  ids_fresh t -> ids_fresh (delete_entry id t).2.
Proof.
  intros [Hnd Hlt]. split; cbn.
  - eapply sublist_NoDup; [exact Hnd|apply fmap_sublist, sublist_filter].
  - rewrite Forall_forall in *. intros r [_ Hr]%list_elem_of_filter. by apply Hlt.
Qed.

(* ================================================================== *)
(** * Proofs: the admin middleware and the reachable worlds *)

Lemma env_value_eq (a b : option string) :
  Js.strict_eq (env_value a) (env_value b) = bool_decide (a = b).
Proof.
  destruct a as [a|], b as [b|]; cbn; try done.
  destruct (String.eqb_spec a b) as [->|Hne].
  - by rewrite bool_decide_eq_true_2.
  - rewrite bool_decide_eq_false_2; [done|]. by intros [= ->].
Qed.

Lemma adminAuth_decide env password next :
  adminAuth env password next =
    if decide (password = ADMIN_PASSWORD env) then next
    else ret (status_json 401 (ErrorJson "Unauthorized")).
Proof.
  unfold adminAuth. rewrite env_value_eq.
  destruct (decide (password = ADMIN_PASSWORD env)) as [H|H].
  - by rewrite bool_decide_eq_true_2.
  - by rewrite bool_decide_eq_false_2.
Qed.

Lemma serve_keeps_ids_fresh env cloud c w :
  ids_fresh (table w) -> ids_fresh (table (serve env cloud c w).2).
Proof.
  intros Hw. destruct c as [now req| |password|password id approved|password id];
    cbn [serve].
  - destruct (post_entries env cloud now req w) as [o w'] eqn:E. cbn [snd].
    destruct (post_entries_table _ _ _ _ _ _ _ E)
      as [->|(name & note & photos & approved & r & Hins)]; [done|].
    by eapply ids_fresh_insert.
  - done.
  - unfold get_admin_entries. rewrite adminAuth_decide.
    by destruct (decide _).
  - unfold patch_admin_entry. rewrite adminAuth_decide.
    destruct (decide _); [|done].
    destruct approved as [| |b| |]; try done.
    unfold try_catch, bind, sql, ret. cbn [table].
    pose proof (ids_fresh_update id b (table w) Hw) as Hu.
    destruct (update_approved id b (table w)) as [[|r l] t']; exact Hu.
  - unfold delete_admin_entry. rewrite adminAuth_decide.
    destruct (decide _); [|done].
    unfold try_catch, bind, sql, ret. cbn [table].
    pose proof (ids_fresh_delete id (table w) Hw) as Hd.
    destruct (delete_entry id (table w)) as [[|r l] t']; exact Hd.
Qed.

Lemma reachable_ids_fresh env cloud w :
  reachable env cloud w -> ids_fresh (table w).
Proof.
  induction 1 as [|w c _ IH].
  - apply ids_fresh_empty.
  - by apply serve_keeps_ids_fresh.
Qed.

(* ================================================================== *)
(** * Proofs: the queries *)

#[global] Instance newer_first_total : Total newer_first.
Proof. intros a b. unfold newer_first. lia. Qed.
#[global] Instance newer_first_trans : Transitive newer_first.
Proof. intros a b c. unfold newer_first. lia. Qed.
#[global] Instance older_first_total : Total older_first.
Proof. intros a b. unfold older_first. lia. Qed.
#[global] Instance older_first_trans : Transitive older_first.
Proof. intros a b c. unfold older_first. lia. Qed.

Lemma select_approved_Permutation (t : Table) :
  select_approved t ≡ₚ public_columns <$> filter (fun r => r_approved r = true) (rows t).
Proof.
  unfold select_approved, order_by_created_at_desc.
  by rewrite merge_sort_Permutation.
Qed.

Lemma select_approved_sorted (t : Table) :
  StronglySorted (fun a b => p_created_at b <= p_created_at a) (select_approved t).
Proof.
  unfold select_approved, order_by_created_at_desc.
  eapply StronglySorted_fmap with (R1 := newer_first).
  - by intros a b.
  - apply StronglySorted_merge_sort; apply _.
Qed.

Lemma elem_of_select_approved (t : Table) (p : PublicEntry) :
  p ∈ select_approved t <->
  exists r, r ∈ rows t /\ r_approved r = true /\ p = public_columns r.
Proof.
  rewrite select_approved_Permutation, list_elem_of_fmap.
  split.
  - intros (r & -> & [Ha Hr]%list_elem_of_filter). by exists r.
  - intros (r & Hr & Ha & ->). exists r. split; [done|].
    by apply list_elem_of_filter.
Qed.

Lemma same_id_same_row (l : list Row) (a b : Row) :
  NoDup (r_id <$> l) -> a ∈ l -> b ∈ l -> r_id a = r_id b -> a = b.
Proof.
  intros Hnd Ha Hb Hid.
  apply list_elem_of_lookup in Ha as [i Hi], Hb as [j Hj].
  assert (i = j) as ->.
  { eapply NoDup_lookup; [exact Hnd| |].
    - by rewrite list_lookup_fmap, Hi.
    - by rewrite list_lookup_fmap, Hj, Hid. }
  congruence.
Qed.

(* ================================================================== *)
(** * The server's claims *)

(** C1.  The public feed answers with the rows whose [approved] is true
    and with no other, newest first, in a shape that has no [approved]
    column (the shape does not depend on the flag); and in every world the
    server can reach, a row whose [approved] is false is not among the
    entries returned. *)
Theorem public_feed_lists_approved_only env cloud w :
  reachable env cloud w ->
  get_entries w = (Returned (json (EntriesJson (select_approved (table w)))), w)
  /\ select_approved (table w)
     ≡ₚ public_columns <$> filter (fun r => r_approved r = true) (rows (table w))
  /\ StronglySorted (fun a b => p_created_at b <= p_created_at a)
       (select_approved (table w))
  /\ (forall r b, public_columns (set_approved b r) = public_columns r)
  /\ (forall r, r ∈ rows (table w) -> r_approved r = false ->
      forall p, p ∈ select_approved (table w) -> p_id p ≠ r_id r).
Proof.
  intros Hreach. split_and!.
  - by destruct w.
  - apply select_approved_Permutation.
  - apply select_approved_sorted.
  - done.
  - intros r Hr Hhidden p Hp Hid.
    apply elem_of_select_approved in Hp as (r' & Hr' & Hshown & ->).
    destruct (reachable_ids_fresh _ _ _ Hreach) as [Hnd _].
    assert (r' = r) as -> by (by eapply same_id_same_row).
    congruence.
Qed.

Lemma public_feed_lists_approved_only_witness :
  reachable sample_env sample_cloud sample_world
  /\ get_entries sample_world
     = (Returned (json (EntriesJson (select_approved (table sample_world)))),
        sample_world)
  /\ (p_name <$> select_approved (table sample_world)) = ["Alex & Jo"].
Proof.
  assert (R : reachable sample_env sample_cloud sample_world)
    by (repeat constructor).
  split; [exact R|].
  split; [exact (proj1 (public_feed_lists_approved_only _ _ _ R))|].
  vm_compute. reflexivity.
Defined.



(** C3.  A submission whose name is missing or empty, or longer than 120
    characters, or whose note is missing or empty, is answered with 400,
    and the world stays as it was: no row is inserted, no upload is sent
    to Cloudinary, nothing is printed. *)
Theorem invalid_submission_is_refused env cloud now req w :
  missing_or_empty (body_name req) = true
  \/ (exists name, body_name req = Js.Str name /\ (120 < String.length name)%nat)
  \/ missing_or_empty (body_note req) = true ->
  exists error,
    post_entries env cloud now req w
    = (Returned (status_json 400 (ErrorJson error)), w).
Proof.
  intros H. apply post_entries_refused.
  destruct H as [H|[(name & -> & H)|H]].
  - left. by apply missing_or_empty_falsy.
  - right. right. cbn. by apply bool_decide_eq_true.
  - right. left. by apply missing_or_empty_falsy.
Qed.

Lemma invalid_submission_is_refused_witness :
  exists error,
    post_entries sample_env sample_cloud 1000
      {| body_name := Js.Str "Sam"; body_note := Js.Undefined;
         body_private := Js.Undefined; files := Some [sample_file "a.png"] |}
      sample_world
    = (Returned (status_json 400 (ErrorJson error)), sample_world).
Proof.
  apply invalid_submission_is_refused. right. right. reflexivity.
Defined.



(** In the sample, the second of three uploads fails: the row keeps the
    first and the third URL. *)
Example two_of_three_uploads_kept :
  successful_urls
    (upload_results sample_cloud 0
       [sample_file "a.png"; sample_file "b.png"; sample_file "c.png"])
  = ["https://res.cloudinary.com/demo/0"; "https://res.cloudinary.com/demo/2"].
Proof. reflexivity. Qed.

(** C9.  The admin middleware lets a request through exactly when the
    value of its [x-admin-password] header is the configured
    [ADMIN_PASSWORD], and answers 401 otherwise.  When no password is
    configured, a request without the header is let through: both sides
    of the comparison are [undefined], and the admin list is served. *)
Theorem admin_access_is_header_equality env password next :
  adminAuth env password next
  = (if decide (password = ADMIN_PASSWORD env) then next
     else ret (status_json 401 (ErrorJson "Unauthorized")))
  /\ (forall cloud_name api_key api_secret w,
       let unset := {| CLOUDINARY_CLOUD_NAME := cloud_name;
                       CLOUDINARY_API_KEY := api_key;
                       CLOUDINARY_API_SECRET := api_secret;
                       ADMIN_PASSWORD := None |} in
       adminAuth unset None next = next
       /\ get_admin_entries unset None w
          = (Returned (json (AdminEntriesJson (select_all (table w)))), w)).
Proof.
  split.
  - apply adminAuth_decide.
  - intros cloud_name api_key api_secret w unset. split; [done|by destruct w].
Qed.

(** The sample server has a password: a request without the header, or
    with another value, gets 401 and changes nothing. *)
Example admin_list_needs_the_password :
  get_admin_entries sample_env None sample_world
  = (Returned (status_json 401 (ErrorJson "Unauthorized")), sample_world)
  /\ get_admin_entries sample_env (Some "Hunter2") sample_world
     = (Returned (status_json 401 (ErrorJson "Unauthorized")), sample_world)
  /\ (r_name <$> match (get_admin_entries sample_env (Some "hunter2") sample_world).1 with
                 | Returned {| body := AdminEntriesJson l |} => l
                 | _ => []
                 end) = ["Alex & Jo"; "Sam"].
Proof. split_and!; vm_compute; reflexivity. Qed.



(* ================================================================== *)
(** * Proofs: escaping *)

Lemma string_app_assoc (a b c : string) : (a +:+ b) +:+ c = a +:+ (b +:+ c).
Proof.
  induction a as [|x a IH]; [done|].
  change (String x a +:+ b) with (String x (a +:+ b)).
  change (String x (a +:+ b) +:+ c) with (String x ((a +:+ b) +:+ c)).
  by rewrite IH.
Qed.

Lemma count_char_app c s1 s2 :
  count_char c (s1 +:+ s2) = (count_char c s1 + count_char c s2)%nat.
Proof.
  induction s1 as [|a s1 IH]; [done|].
  change (String a s1 +:+ s2) with (String a (s1 +:+ s2)).
  cbn [count_char]. rewrite IH. lia.
Qed.

Lemma escapeHtml_each (str : string) : escapeHtml str = escape_each str.
Proof.
  unfold escapeHtml. induction str as [|c str IH]; [done|].
  cbn [escape_each replace_all]. rewrite <- IH. unfold entity.
  destruct (Ascii.eqb_spec c "&") as [->|Hamp]; [done|].
  destruct (Ascii.eqb_spec c "<") as [->|Hlt]; [done|].
  destruct (Ascii.eqb_spec c ">") as [->|Hgt].
  { done. }
  cbn [replace_all].
  destruct (Ascii.eqb_spec c "<") as [?|_]; [done|]. cbn [replace_all].
  destruct (Ascii.eqb_spec c ">") as [?|_]; [done|]. cbn [replace_all].
  by destruct (Ascii.eqb_spec c (Ascii.ascii_of_nat 34)) as [->|Hq].
Qed.

Lemma entity_has_no_markup c m :
  m ∈ markup_characters -> count_char m (entity c) = 0%nat.
Proof.
  intros Hm. unfold entity.
  destruct (Ascii.eqb_spec c "&") as [->|Hamp].
  { repeat (apply elem_of_cons in Hm as [->|Hm]; [done|]). by apply elem_of_nil in Hm. }
  destruct (Ascii.eqb_spec c "<") as [->|Hlt].
  { repeat (apply elem_of_cons in Hm as [->|Hm]; [done|]). by apply elem_of_nil in Hm. }
  destruct (Ascii.eqb_spec c ">") as [->|Hgt].
  { repeat (apply elem_of_cons in Hm as [->|Hm]; [done|]). by apply elem_of_nil in Hm. }
  destruct (Ascii.eqb_spec c (Ascii.ascii_of_nat 34)) as [->|Hq].
  { repeat (apply elem_of_cons in Hm as [->|Hm]; [done|]). by apply elem_of_nil in Hm. }
  cbn. destruct (Ascii.eqb_spec c m) as [->|_]; [|done].
  repeat (apply elem_of_cons in Hm as [?|Hm]; [done|]). by apply elem_of_nil in Hm.
Qed.

Lemma escapeHtml_has_no_markup str m :
  m ∈ markup_characters -> count_char m (escapeHtml str) = 0%nat.
Proof.
  intros Hm. rewrite escapeHtml_each.
  induction str as [|c str IH]; [done|].
  cbn [escape_each]. by rewrite count_char_app, entity_has_no_markup, IH.
Qed.

Lemma count_char_join c sep (l l' : list string) :
  Forall2 (fun a b => count_char c a = count_char c b) l l' ->
  count_char c (join sep l) = count_char c (join sep l').
Proof.
  induction 1 as [|a b l l' Hab Hl IH]; [done|].
  unfold join in *. destruct Hl as [|a' b' l l' Hab' Hl]; cbn [String.concat].
  - done.
  - rewrite !count_char_app. cbn [String.concat] in IH. by rewrite Hab, IH.
Qed.

Lemma renderEntry_count tpl entry m :
  m ∈ markup_characters ->
  count_char m (renderEntry tpl entry)
  = count_char m (renderEntry tpl (without_text entry)).
Proof.
  intros Hm. unfold renderEntry, without_text.
  cbn [e_name e_note e_created_at embeddedPhotos].
  rewrite !count_char_app.
  rewrite !(escapeHtml_has_no_markup _ m Hm). done.
Qed.

Lemma photoCount_without_text (l : list Entry) :
  photoCount (without_text <$> l) = photoCount l.
Proof.
  unfold photoCount. generalize 0%nat.
  induction l as [|e l IH]; intros n; [done|]. cbn. apply IH.
Qed.

Lemma buildHTML_count tpl entries title m :
  m ∈ markup_characters ->
  count_char m (buildHTML tpl entries title)
  = count_char m (buildHTML tpl (without_text <$> entries) title).
Proof.
  intros Hm. unfold buildHTML.
  rewrite !count_char_app, length_fmap, photoCount_without_text.
  rewrite (count_char_join m _ (renderEntry tpl <$> entries)
             (renderEntry tpl <$> (without_text <$> entries))); [done|].
  rewrite <- list_fmap_compose. apply Forall2_fmap, Forall_Forall2_diag, Forall_forall.
  intros e _. by apply renderEntry_count.
Qed.

Lemma includes_needs_first_char c p s :
  count_char c s = 0%nat -> includes (String c p) s = false.
Proof.
  induction s as [|a s IH]; [done|].
  cbn [count_char includes starts_with].
  destruct (Ascii.eqb_spec a c) as [->|Hne]; [done|].
  rewrite (proj2 (Ascii.eqb_neq c a)) by done. cbn. exact IH.
Qed.

(* ================================================================== *)
(** * The exporter's claims *)

(** C5.  In every entry block and in every document the exporter
    renders, the name and the note stand escaped: [escapeHtml] replaces
    each of [&], [<], [>] and the double quote by its entity and leaves no
    other character changed, so the escaped text holds no [<], [>] or
    double quote at all, and the number of these characters in the block
    and in the document is the one of the same entry with an empty name
    and note.  A note [<script>alert(1)</script>] is rendered as the
    paragraph [&lt;script&gt;alert(1)&lt;/script&gt;], and no escaped text
    contains [<script>]. *)
Theorem user_text_is_escaped tpl entry :
  escapeHtml (e_name entry) = escape_each (e_name entry)
  /\ escapeHtml (e_note entry) = escape_each (e_note entry)
  /\ Forall (fun m =>
        count_char m (escapeHtml (e_name entry)) = 0%nat
        /\ count_char m (escapeHtml (e_note entry)) = 0%nat
        /\ count_char m (renderEntry tpl entry)
           = count_char m (renderEntry tpl (without_text entry))
        /\ forall entries title,
             count_char m (buildHTML tpl entries title)
             = count_char m (buildHTML tpl (without_text <$> entries) title))
       markup_characters
  /\ includes "<script>" (escapeHtml (e_name entry)) = false
  /\ includes "<script>" (escapeHtml (e_note entry)) = false
  /\ escapeHtml "<script>alert(1)</script>" = "&lt;script&gt;alert(1)&lt;/script&gt;"
  /\ exists before after,
       renderEntry tpl (with_note "<script>alert(1)</script>" entry)
       = before +:+ "<p class=" +:+ quot +:+ "entry-note" +:+ quot
           +:+ ">&lt;script&gt;alert(1)&lt;/script&gt;</p>" +:+ after.
Proof.
  split_and!.
  - apply escapeHtml_each.
  - apply escapeHtml_each.
  - apply Forall_forall. intros m Hm. split_and!.
    + by apply escapeHtml_has_no_markup.
    + by apply escapeHtml_has_no_markup.
    + by apply renderEntry_count.
    + intros entries title. by apply buildHTML_count.
  - apply includes_needs_first_char, escapeHtml_has_no_markup. by left.
  - apply includes_needs_first_char, escapeHtml_has_no_markup. by left.
  - reflexivity.
  - exists ("
    <div class=" +:+ quot +:+ "entry" +:+ quot +:+ ">
      <div class=" +:+ quot +:+ "entry-header" +:+ quot +:+ ">
        <h3 class=" +:+ quot +:+ "entry-name" +:+ quot +:+ ">"
            +:+ escapeHtml (e_name entry) +:+ "</h3>
        <time class=" +:+ quot +:+ "entry-date" +:+ quot +:+ ">"
            +:+ formatDate tpl (e_created_at entry) +:+ "</time>
      </div>
      "),
           ("
      " +:+ photos_block (join "" (img <$> embeddedPhotos entry)) +:+ "
    </div>").
    unfold renderEntry, with_note.
    cbn [e_name e_note e_created_at embeddedPhotos].
    rewrite !string_app_assoc. reflexivity.
Qed.

(* ================================================================== *)
(** * Proofs: the export script *)

Lemma write_variants_spec tpl vs : forall w,
  write_variants tpl vs w =
    (Returned tt,
     {| disk := {| photos_dir := photos_dir (disk w);
                   json_file := json_file (disk w);
                   html_files := with_variants tpl vs (html_files (disk w)) |};
        requests := requests w; totalPhotos := totalPhotos w;
        output := output w |}).
Proof.
  induction vs as [|v vs IH]; intros [[ph js ht] rq tp out]; [done|].
  cbn [write_variants]. unfold bind, write_html, on_disk, update_world.
  by rewrite IH.
Qed.

(** [downloadImage] never throws.  A fetch that succeeded is saved under
    the deterministic name and returned as a data URI; one that failed is
    printed and returned as [None]. *)
Lemma downloadImage_spec net url id n w :
  ExportScript.downloadImage net url id n w =
    match net (length (requests w)) url with
    | Resolved res =>
        if ok res then
          (Returned (Some {| ExportScript.dataUri :=
                               "data:" +:+ content_type_of res +:+ ";base64,"
                               +:+ base64 (payload res);
                             ExportScript.filename :=
                               base_name id n +:+ extension_of (content_type_of res) |}),
           {| disk := {| photos_dir :=
                           <[base_name id n +:+ extension_of (content_type_of res)
                             := payload res]> (photos_dir (disk w));
                         json_file := json_file (disk w);
                         html_files := html_files (disk w) |};
              requests := requests w ++ [url];
              totalPhotos := totalPhotos w; output := output w |})
        else
          (Returned None,
           {| disk := disk w; requests := requests w ++ [url];
              totalPhotos := totalPhotos w;
              output := output w
                ++ [ConsoleError ("  Failed to download: " +:+ url +:+ " — "
                                  +:+ "HTTP " +:+ show_nat (http_status res)) ""] |})
    | Rejected message =>
        (Returned None,
         {| disk := disk w; requests := requests w ++ [url];
            totalPhotos := totalPhotos w;
            output := output w
              ++ [ConsoleError ("  Failed to download: " +:+ url +:+ " — "
                                +:+ message) ""] |})
    end.
Proof.
  destruct w as [d rq tp out].
  cbv beta iota zeta delta
    [ExportScript.downloadImage ExportScript.fetch ExportScript.write_photo
     try_catch bind print_error on_disk get_world update_world ret throw
     requests disk totalPhotos output].
  destruct (net (length rq) url) as [res|message]; [|done].
  destruct (ok res); [|done]. cbn [negb].
  unfold base_name, extension_of, content_type_of.
  by rewrite !string_app_assoc.
Qed.

(** The inner loop never throws: it returns the data URIs of the fetches
    that succeeded, in order, and touches neither the JSON file nor the
    documents. *)
Lemma download_photos_spec net id photos : forall i embedded w,
  exists w',
    ExportScript.download_photos net id i photos embedded w
    = (Returned (embedded
                 ++ omap embedded_uri (fetch_results net (length (requests w)) photos)),
       w')
    /\ requests w' = requests w ++ photos
    /\ json_file (disk w') = json_file (disk w)
    /\ html_files (disk w') = html_files (disk w).
Proof.
  induction photos as [|url rest IH]; intros i embedded w.
  - exists w. cbn. by rewrite !app_nil_r.
  - cbn [ExportScript.download_photos fetch_results].
    destruct w as [d rq tp out]. step_async.
    rewrite downloadImage_spec. cbn [requests disk totalPhotos output].
    assert (Hnext : forall l : list string, length (rq ++ [url]) = S (length rq)).
    { intros _. rewrite length_app. cbn. lia. }
    destruct (net (length rq) url) as [res|message];
      [destruct (ok res) eqn:Hok|];
      edestruct IH as (w' & Hrun & Hrq & Hjs & Hht); rewrite Hrun; clear Hrun;
      cbn [requests disk json_file html_files] in Hrq, Hjs, Hht |- *;
      rewrite (Hnext []); exists w';
      (split; [|by rewrite Hrq, <- app_assoc]);
      unfold omap; cbn [list_omap embedded_uri]; rewrite ?Hok;
      by rewrite <- ?app_assoc.
Qed.

(** The outer loop never throws either. *)
Lemma embed_photos_spec net entries : forall w,
  exists w',
    ExportScript.embed_photos net entries w
    = (Returned (embedded_entries net (length (requests w)) entries), w')
    /\ json_file (disk w') = json_file (disk w)
    /\ html_files (disk w') = html_files (disk w).
Proof.
  induction entries as [|entry rest IH]; intros w.
  - by exists w.
  - cbn [ExportScript.embed_photos embedded_entries].
    assert (exists w1,
      match r_photos entry with
      | [] => ret []
      | _ :: _ => ExportScript.download_photos net (r_id entry) 0 (r_photos entry) []
      end w
      = (Returned (omap embedded_uri
                     (fetch_results net (length (requests w)) (r_photos entry))), w1)
      /\ length (requests w1) = (length (requests w) + length (r_photos entry))%nat
      /\ json_file (disk w1) = json_file (disk w)
      /\ html_files (disk w1) = html_files (disk w))
      as (w1 & Hinner & Hrq & Hjs & Hht).
    { destruct (r_photos entry) as [|url urls] eqn:Hphotos.
      - exists w. split_and!; [done|cbn; lia|done|done].
      - destruct (download_photos_spec net (r_id entry) (url :: urls) 0 [] w)
          as (w1 & Hrun & Hrq & Hjs & Hht).
        exists w1. split_and!; [done| |done|done].
        by rewrite Hrq, length_app. }
    destruct (IH w1) as (w' & Hrest & Hjs' & Hht').
    exists w'. split_and!; [|congruence|congruence].
    rewrite (bind_returned _ _ _ _ _ Hinner).
    rewrite (bind_returned _ _ _ _ _ Hrest).
    unfold ret. by rewrite Hrq.
Qed.

(** [main] runs to its end whatever the network does, and leaves the raw
    JSON and the four documents on disk. *)
Lemma main_spec tpl net db w :
  exists w',
    ExportScript.main tpl net db w = (Returned tt, w')
    /\ json_file (disk w')
       = Some (ExportScript.jsonData
                 (embedded_entries net (length (requests w)) (select_all_asc db)))
    /\ html_files (disk w')
       = with_variants tpl
           (ExportScript.variants
              (embedded_entries net (length (requests w)) (select_all_asc db)))
           (html_files (disk w)).
Proof.
  destruct w as [d rq tp out]. unfold ExportScript.main. step_async.
  edestruct (embed_photos_spec net (select_all_asc db)) as (w1 & Hrun & Hjs & Hht).
  rewrite Hrun. clear Hrun. cbn [requests disk] in *.
  rewrite write_variants_spec. cbn [requests disk json_file html_files].
  eexists. split; [reflexivity|]. cbn [disk json_file html_files].
  by rewrite Hht.
Qed.


Lemma fetched_or_failed (results : list FetchResult) :
  (length (omap embedded_uri results)
   + length (filter (fun r => fails r = true) results))%nat
  = length results.
Proof.
  induction results as [|r results IH]; [done|].
  rewrite filter_cons. unfold omap in *. cbn [list_omap].
  destruct r as [res|message]; cbn [embedded_uri fails].
  - destruct (ok res); cbn [negb].
    + rewrite decide_False by done. cbn. lia.
    + rewrite decide_True by done. cbn. lia.
  - rewrite decide_True by done. cbn. lia.
Qed.



(* ================================================================== *)
(** * Proofs: the saved photos *)



Lemma from_last_dot_app s ext ext' :
  GenerateHtml.from_last_dot ext = Some ext' ->
  GenerateHtml.from_last_dot (s +:+ ext) = Some ext'.
Proof.
  intros H. induction s as [|c s IH]; [done|].
  change (String c s +:+ ext) with (String c (s +:+ ext)).
  cbn [GenerateHtml.from_last_dot]. by rewrite IH.
Qed.

Lemma extname_saved id n ext :
  ext ∈ GenerateHtml.candidates ->
  GenerateHtml.extname (base_name id n +:+ ext) = ext.
Proof.
  intros Hext. unfold base_name.
  change (("entry-" +:+ show_Z id +:+ "-photo-" +:+ show_nat n) +:+ ext)
    with (String "e" (("ntry-" +:+ show_Z id +:+ "-photo-" +:+ show_nat n) +:+ ext)).
  cbn [GenerateHtml.extname].
  rewrite (from_last_dot_app _ ext ext); [done|].
  unfold GenerateHtml.candidates in Hext.
  repeat (apply elem_of_cons in Hext as [->|Hext]; [done|]).
  by apply elem_of_nil in Hext.
Qed.

(** The offline lookup finds the file saved under [ext] when no file of
    an extension probed earlier exists for the same base name. *)
Lemma load_photo_finds d id i ext buffer :
  ext ∈ GenerateHtml.candidates ->
  Forall (fun c => photos_dir d !! (base_name id (i + 1) +:+ c) = None)
         (probed_before ext GenerateHtml.candidates) ->
  photos_dir d !! (base_name id (i + 1) +:+ ext) = Some buffer ->
  GenerateHtml.load_photo d id i
  = Some ("data:" +:+ mime_of_extension ext +:+ ";base64," +:+ base64 buffer).
Proof.
  intros Hext Hnone Hsaved.
  assert (Hname : GenerateHtml.extname (base_name id (i + 1) +:+ ext) = ext)
    by (by apply extname_saved).
  unfold GenerateHtml.load_photo. fold (base_name id (i + 1)).
  unfold GenerateHtml.candidates in *.
  repeat (apply elem_of_cons in Hext as [->|Hext];
          [cbn [probed_before String.eqb Ascii.eqb Bool.eqb] in Hnone;
           repeat (apply Forall_cons in Hnone as [?Hmiss Hnone]);
           cbn [fmap list_fmap List.find]; unfold GenerateHtml.existsSync;
           repeat match goal with
                  | H : photos_dir d !! _ = None |- _ => rewrite H; clear H
                  end;
           rewrite Hsaved; cbn [default]; rewrite Hname, Hsaved;
           done|]).
  by apply elem_of_nil in Hext.
Qed.





(* ================================================================== *)
(** * Proofs: the variants *)







(** With fewer than three saved entries the script stops at the line
    that reads the ids of the first three, before it writes anything. *)
Example regeneration_needs_three_entries :
  GenerateHtml.generate_html sample_template
    (fresh_run {| photos_dir := ∅; json_file := Some (take 2 sample_saved);
                  html_files := ∅ |})
  = (Threw "TypeError: Cannot read properties of undefined (reading 'id')",
     {| disk := {| photos_dir := ∅; json_file := Some (take 2 sample_saved);
                   html_files := ∅ |};
        requests := []; totalPhotos := 0;
        output := [ConsoleLog "Loaded 2 entries from JSON."] |}).
Proof. vm_compute. reflexivity. Qed.

(* ================================================================== *)
(** * Further properties of the admin routes *)




Lemma filter_absent id (l : list Row) :
  id ∉ r_id <$> l -> filter (fun r => r_id r = id) l = [].
Proof.
  induction l as [|r l IH]; [done|]. cbn [fmap list_fmap]. intros Hid.
  apply not_elem_of_cons in Hid as [Hr Hl].
  rewrite filter_cons_False by done. by apply IH.
Qed.


Lemma update_approved_rows id approved t :
  update_approved id approved t
  = (filter (fun r => r_id r = id) (moderated id approved (rows t)),
     {| rows := moderated id approved (rows t); next_id := next_id t |}).
Proof. done. Qed.

Lemma patch_admin_entry_run env id approved w :
  patch_admin_entry env (ADMIN_PASSWORD env) id (Js.Bool approved) w
  = (Returned
       match filter (fun r => r_id r = id) (moderated id approved (rows (table w))) with
       | [] => status_json 404 (ErrorJson "Entry not found")
       | r :: _ => json (UpdatedJson (r_id r) (r_name r) (r_approved r))
       end,
     {| table := {| rows := moderated id approved (rows (table w));
                    next_id := next_id (table w) |};
        cloud_requests := cloud_requests w; console := console w |}).
Proof.
  unfold patch_admin_entry. rewrite adminAuth_decide, decide_True by done.
  unfold try_catch, bind, sql, ret. rewrite update_approved_rows.
  by destruct (filter _ _).
Qed.

Lemma delete_admin_entry_run env id w :
  delete_admin_entry env (ADMIN_PASSWORD env) id w
  = (Returned
       match filter (fun r => r_id r = id) (rows (table w)) with
       | [] => status_json 404 (ErrorJson "Entry not found")
       | _ :: _ => json (DeletedJson "Entry deleted")
       end,
     {| table := {| rows := filter (fun r => r_id r ≠ id) (rows (table w));
                    next_id := next_id (table w) |};
        cloud_requests := cloud_requests w; console := console w |}).
Proof.
  unfold delete_admin_entry. rewrite adminAuth_decide, decide_True by done.
  unfold try_catch, bind, sql, ret, delete_entry. cbn [fst snd].
  by destruct (filter _ _).
Qed.



(** X2.  A PATCH whose [approved] is not a boolean (the string [true], a
    number, [null], nothing) is answered with 400 and changes nothing,
    whether or not the id exists. *)
Theorem approved_must_be_a_boolean env id approved w :
  (forall b, approved ≠ Js.Bool b) ->
  patch_admin_entry env (ADMIN_PASSWORD env) id approved w
  = (Returned (status_json 400 (ErrorJson "approved must be a boolean")), w).
Proof.
  intros Hb. unfold patch_admin_entry.
  rewrite adminAuth_decide, decide_True by done.
  destruct approved as [| |b| |]; try done. by destruct (Hb b).
Qed.

Lemma approved_must_be_a_boolean_witness :
  patch_admin_entry sample_env (ADMIN_PASSWORD sample_env) 1 (Js.Str "true") sample_world
  = (Returned (status_json 400 (ErrorJson "approved must be a boolean")), sample_world).
Proof. apply approved_must_be_a_boolean. intros b. discriminate. Defined.

(** X3.  A request to an admin route whose password header is not the
    configured password is answered with 401 by each of the three routes,
    and changes nothing: no row is listed, updated or deleted. *)
Theorem wrong_password_changes_nothing env password id approved w :
  password ≠ ADMIN_PASSWORD env ->
  get_admin_entries env password w
  = (Returned (status_json 401 (ErrorJson "Unauthorized")), w)
  /\ patch_admin_entry env password id approved w
     = (Returned (status_json 401 (ErrorJson "Unauthorized")), w)
  /\ delete_admin_entry env password id w
     = (Returned (status_json 401 (ErrorJson "Unauthorized")), w).
Proof.
  intros Hwrong.
  unfold get_admin_entries, patch_admin_entry, delete_admin_entry.
  by rewrite !adminAuth_decide, !decide_False.
Qed.

Lemma wrong_password_changes_nothing_witness :
  get_admin_entries sample_env (Some "guess") sample_world
  = (Returned (status_json 401 (ErrorJson "Unauthorized")), sample_world)
  /\ patch_admin_entry sample_env (Some "guess") 1 (Js.Bool true) sample_world
     = (Returned (status_json 401 (ErrorJson "Unauthorized")), sample_world)
  /\ delete_admin_entry sample_env (Some "guess") 1 sample_world
     = (Returned (status_json 401 (ErrorJson "Unauthorized")), sample_world).
Proof. apply wrong_password_changes_nothing. discriminate. Defined.

Lemma moderated_lookup id approved (l : list Row) (r : Row) :
  r ∈ moderated id approved l <->
  exists x, x ∈ l /\ r = if bool_decide (r_id x = id) then set_approved approved x else x.
Proof.
  unfold moderated. rewrite list_elem_of_fmap. split.
  - intros (x & -> & Hx). by exists x.
  - intros (x & Hx & ->). by exists x.
Qed.

Lemma moderated_columns id approved (l : list Row) :
  public_columns <$> moderated id approved l = public_columns <$> l.
Proof.
  unfold moderated. rewrite <- list_fmap_compose. apply list_fmap_ext.
  intros i r _. cbn. by destruct (bool_decide _).
Qed.

Lemma only_row_with_id (l : list Row) (r : Row) :
  NoDup (r_id <$> l) -> r ∈ l -> filter (fun x => r_id x = r_id r) l = [r].
Proof.
  induction l as [|x l IH]; [by intros _ ?%elem_of_nil|].
  cbn [fmap list_fmap]. intros [Hx Hnd]%NoDup_cons [->|Hr]%elem_of_cons.
  - rewrite filter_cons_True by done. f_equal.
    apply filter_absent. done.
  - rewrite filter_cons_False; [by apply IH|].
    intros Heq. apply Hx. rewrite Heq. by apply list_elem_of_fmap_2.
Qed.

Lemma filter_moderated id approved (l : list Row) :
  filter (fun r => r_id r = id) (moderated id approved l)
  = set_approved approved <$> filter (fun r => r_id r = id) l.
Proof.
  unfold moderated. induction l as [|r l IH]; [done|].
  cbn [fmap list_fmap]. destruct (decide (r_id r = id)) as [Hid|Hid].
  - rewrite bool_decide_eq_true_2 by done.
    rewrite !filter_cons_True by done. cbn. by rewrite IH.
  - rewrite bool_decide_eq_false_2 by done.
    by rewrite !filter_cons_False.
Qed.

(** X4.  In a world the server can reach, a PATCH with the right
    password on the id of a row is answered with 200 and the id, name and
    new flag of that row.  It sets the flag of that row and changes
    nothing else: every row keeps its place, id, name, note, photos and
    timestamp, the sequence is not moved, and nothing is sent to
    Cloudinary. *)
Theorem moderation_only_flips_the_flag env cloud w r approved :
  reachable env cloud w ->
  r ∈ rows (table w) ->
  exists w',
    patch_admin_entry env (ADMIN_PASSWORD env) (r_id r) (Js.Bool approved) w
    = (Returned (json (UpdatedJson (r_id r) (r_name r) approved)), w')
    /\ rows (table w') = moderated (r_id r) approved (rows (table w))
    /\ set_approved approved r ∈ rows (table w')
    /\ public_columns <$> rows (table w') = public_columns <$> rows (table w)
    /\ (forall x, x ∈ rows (table w) -> r_id x ≠ r_id r -> x ∈ rows (table w'))
    /\ next_id (table w') = next_id (table w)
    /\ cloud_requests w' = cloud_requests w
    /\ console w' = console w.
Proof.
  intros Hreach Hr. destruct (reachable_ids_fresh _ _ _ Hreach) as [Hnd _].
  rewrite patch_admin_entry_run, filter_moderated, only_row_with_id by done.
  eexists. split; [reflexivity|]. cbn [table rows next_id cloud_requests console].
  split_and!; try done.
  - apply moderated_lookup. exists r. by rewrite bool_decide_eq_true_2.
  - apply moderated_columns.
  - intros x Hx Hne. apply moderated_lookup. exists x.
    by rewrite bool_decide_eq_false_2.
Qed.

Lemma moderation_only_flips_the_flag_witness :
  exists w',
    patch_admin_entry sample_env (ADMIN_PASSWORD sample_env) 1 (Js.Bool true) sample_world
    = (Returned (json (UpdatedJson 1 "Sam" true)), w')
    /\ rows (table w')
       = moderated 1 true (rows (table sample_world))
    /\ set_approved true
         {| r_id := 1; r_name := "Sam"; r_note := "For you two only";
            r_photos := []; r_approved := false; r_created_at := 1000 |}
       ∈ rows (table w')
    /\ public_columns <$> rows (table w') = public_columns <$> rows (table sample_world)
    /\ (forall x, x ∈ rows (table sample_world) -> r_id x ≠ 1 -> x ∈ rows (table w'))
    /\ next_id (table w') = next_id (table sample_world)
    /\ cloud_requests w' = cloud_requests sample_world
    /\ console w' = console sample_world.
Proof.
  apply (moderation_only_flips_the_flag sample_env sample_cloud sample_world
           {| r_id := 1; r_name := "Sam"; r_note := "For you two only";
              r_photos := []; r_approved := false; r_created_at := 1000 |} true).
  - repeat constructor.
  - vm_compute. apply list_elem_of_here.
Defined.

(** X5.  Approval decides what the public feed shows: after a PATCH with
    [approved: true] on the id of a row the feed holds that entry, and
    after one with [approved: false] the feed holds no entry of that id. *)
Theorem approval_decides_visibility env w r :
  r ∈ rows (table w) ->
  public_columns r
  ∈ select_approved
      (table (patch_admin_entry env (ADMIN_PASSWORD env) (r_id r) (Js.Bool true) w).2)
  /\ (forall p,
       p ∈ select_approved
             (table (patch_admin_entry env (ADMIN_PASSWORD env) (r_id r)
                       (Js.Bool false) w).2) ->
       p_id p ≠ r_id r).
Proof.
  intros Hr. rewrite !patch_admin_entry_run. cbn [snd table]. split.
  - apply elem_of_select_approved. exists (set_approved true r). split_and!; try done.
    cbn [rows]. apply moderated_lookup. exists r. by rewrite bool_decide_eq_true_2.
  - intros p (r' & Hr' & Hshown & ->)%elem_of_select_approved Hid.
    cbn [rows] in Hr'. apply moderated_lookup in Hr' as (x & Hx & ->).
    destruct (decide (r_id x = r_id r)) as [Heq|Hne].
    + by rewrite bool_decide_eq_true_2 in Hshown.
    + rewrite bool_decide_eq_false_2 in Hid by done. done.
Qed.

Lemma approval_decides_visibility_witness :
  public_columns (sample_row 1 "Ann" ["http://a/0"] false)
  ∈ select_approved
      (table (patch_admin_entry sample_env (ADMIN_PASSWORD sample_env) 1 (Js.Bool true)
                {| table := sample_table; cloud_requests := []; console := [] |}).2)
  /\ (forall p,
       p ∈ select_approved
             (table (patch_admin_entry sample_env (ADMIN_PASSWORD sample_env) 1
                       (Js.Bool false)
                       {| table := sample_table; cloud_requests := [];
                          console := [] |}).2) ->
       p_id p ≠ 1).
Proof.
  apply (approval_decides_visibility sample_env
           {| table := sample_table; cloud_requests := []; console := [] |}
           (sample_row 1 "Ann" ["http://a/0"] false)).
  cbn. do 2 apply list_elem_of_further. apply list_elem_of_here.
Defined.

(** X6.  A DELETE with the right password on the id of a row is answered
    with 200.  No row of that id is left, in the table or in the public
    feed; every other row stays, in its place; the sequence is not moved,
    and nothing is sent to Cloudinary (the photos stay where they are). *)
Theorem deletion_removes_the_entry env w r :
  r ∈ rows (table w) ->
  exists w',
    delete_admin_entry env (ADMIN_PASSWORD env) (r_id r) w
    = (Returned (json (DeletedJson "Entry deleted")), w')
    /\ rows (table w') = filter (fun x => r_id x ≠ r_id r) (rows (table w))
    /\ (r_id r ∉ r_id <$> rows (table w'))
    /\ (forall p, p ∈ select_approved (table w') -> p_id p ≠ r_id r)
    /\ (forall x, x ∈ rows (table w) -> r_id x ≠ r_id r -> x ∈ rows (table w'))
    /\ rows (table w') `sublist_of` rows (table w)
    /\ next_id (table w') = next_id (table w)
    /\ cloud_requests w' = cloud_requests w.
Proof.
  intros Hr. rewrite delete_admin_entry_run.
  destruct (filter (fun x => r_id x = r_id r) (rows (table w))) as [|x l] eqn:Hf.
  { assert (r ∈ filter (fun x => r_id x = r_id r) (rows (table w)))
      by (by apply list_elem_of_filter).
    rewrite Hf in H. by apply elem_of_nil in H. }
  eexists. split; [reflexivity|]. cbn [table rows next_id cloud_requests].
  assert (Hgone : r_id r ∉ r_id <$> filter (fun x => r_id x ≠ r_id r) (rows (table w))).
  { intros (y & Hy & [Hne _]%list_elem_of_filter)%list_elem_of_fmap. by apply Hne. }
  split_and!; try done.
  - intros p (r' & Hr' & _ & ->)%elem_of_select_approved Hid. cbn [rows] in Hr'.
    apply Hgone. cbn [public_columns p_id] in Hid.
    apply list_elem_of_fmap. exists r'. by split.
  - intros y Hy Hne. by apply list_elem_of_filter.
  - apply sublist_filter.
Qed.

Lemma deletion_removes_the_entry_witness :
  exists w',
    delete_admin_entry sample_env (ADMIN_PASSWORD sample_env) 2
      {| table := sample_table; cloud_requests := []; console := [] |}
    = (Returned (json (DeletedJson "Entry deleted")), w')
    /\ rows (table w') = filter (fun x => r_id x ≠ 2) (rows sample_table)
    /\ (2 ∉ r_id <$> rows (table w'))
    /\ (forall p, p ∈ select_approved (table w') -> p_id p ≠ 2)
    /\ (forall x, x ∈ rows sample_table -> r_id x ≠ 2 -> x ∈ rows (table w'))
    /\ rows (table w') `sublist_of` rows sample_table
    /\ next_id (table w') = next_id sample_table
    /\ cloud_requests w' = [].
Proof.
  apply (deletion_removes_the_entry sample_env
           {| table := sample_table; cloud_requests := []; console := [] |}
           (sample_row 2 "Bo" ["http://a/1"; "http://a/2"; "http://a/3"] true)).
  cbn. apply list_elem_of_further, list_elem_of_here.
Defined.

(* ================================================================== *)
(** * Further properties of the table over a history *)

Lemma approved_not_boolean env id approved w :
  (forall b, approved ≠ Js.Bool b) ->
  (patch_admin_entry env (ADMIN_PASSWORD env) id approved w).2 = w.
Proof.
  intros Hb. unfold patch_admin_entry.
  rewrite adminAuth_decide, decide_True by done.
  destruct approved as [| |b| |]; try done. by destruct (Hb b).
Qed.

Lemma admin_route_refuses env password id approved w :
  password ≠ ADMIN_PASSWORD env ->
  (get_admin_entries env password w).2 = w
  /\ (patch_admin_entry env password id approved w).2 = w
  /\ (delete_admin_entry env password id w).2 = w.
Proof.
  intros Hwrong.
  unfold get_admin_entries, patch_admin_entry, delete_admin_entry.
  by rewrite !adminAuth_decide, !decide_False.
Qed.

(** One request moves the sequence forward or not at all, and every row
    after it is a row from before it (with its flag changed at most) or
    the one row the sequence has just numbered. *)
Lemma serve_rows env cloud c w r' :
  r' ∈ rows (table (serve env cloud c w).2) ->
  next_id (table w) <= next_id (table (serve env cloud c w).2)
  /\ ((exists r, r ∈ rows (table w) /\ public_columns r' = public_columns r)
      \/ r_id r' = next_id (table w)).
Proof.
  destruct c as [now req| |password|password id approved|password id];
    cbn [serve].
  - destruct (post_entries env cloud now req w) as [o w'] eqn:E. cbn [snd].
    destruct (post_entries_table _ _ _ _ _ _ _ E)
      as [->|(name & note & photos & approved & r & Hins)].
    { intros Hr. split; [lia|]. left. by exists r'. }
    unfold insert_entry in Hins. destruct (bool_decide _); [|done].
    injection Hins as <- <-. cbn [rows next_id].
    intros [Hr| ->%list_elem_of_singleton]%elem_of_app; (split; [lia|]).
    + left. by exists r'.
    + by right.
  - intros Hr. split; [done|]. left. by exists r'.
  - unfold get_admin_entries. rewrite adminAuth_decide.
    destruct (decide _); intros Hr; (split; [done|]); left; by exists r'.
  - destruct (decide (password = ADMIN_PASSWORD env)) as [->|Hwrong].
    2:{ rewrite (proj1 (proj2 (admin_route_refuses env password id approved w Hwrong))).
        intros Hr. split; [done|]. left. by exists r'. }
    destruct approved as [| |b| |];
      try (rewrite approved_not_boolean by done;
           intros Hr; split; [done|]; left; by exists r').
    rewrite patch_admin_entry_run. cbn [snd table rows next_id].
    intros (x & Hx & ->)%moderated_lookup. split; [done|]. left. exists x.
    split; [done|]. by destruct (bool_decide _).
  - destruct (decide (password = ADMIN_PASSWORD env)) as [->|Hwrong].
    2:{ rewrite (proj2 (proj2 (admin_route_refuses env password id Js.Null w Hwrong))).
        intros Hr. split; [done|]. left. by exists r'. }
    rewrite delete_admin_entry_run. cbn [snd table rows next_id].
    intros [_ Hr]%list_elem_of_filter. split; [done|]. left. by exists r'.
Qed.

Lemma serve_sequence env cloud c w :
  next_id (table w) <= next_id (table (serve env cloud c w).2).
Proof.
  destruct c as [now req| |password|password id approved|password id];
    cbn [serve].
  - destruct (post_entries env cloud now req w) as [o w'] eqn:E. cbn [snd].
    destruct (post_entries_table _ _ _ _ _ _ _ E)
      as [->|(name & note & photos & approved & r & Hins)]; [done|].
    unfold insert_entry in Hins. destruct (bool_decide _); [|done].
    injection Hins as <- <-. cbn. lia.
  - done.
  - unfold get_admin_entries. rewrite adminAuth_decide. by destruct (decide _).
  - destruct (decide (password = ADMIN_PASSWORD env)) as [->|Hwrong].
    2:{ by rewrite (proj1 (proj2 (admin_route_refuses env password id approved w Hwrong))). }
    destruct approved as [| |b| |]; try (by rewrite approved_not_boolean).
    by rewrite patch_admin_entry_run.
  - destruct (decide (password = ADMIN_PASSWORD env)) as [->|Hwrong].
    2:{ by rewrite (proj2 (proj2 (admin_route_refuses env password id Js.Null w Hwrong))). }
    by rewrite delete_admin_entry_run.
Qed.

Lemma steps_rows env cloud w w' :
  steps env cloud w w' ->
  next_id (table w) <= next_id (table w')
  /\ forall r', r' ∈ rows (table w') -> r_id r' < next_id (table w) ->
       exists r, r ∈ rows (table w) /\ public_columns r' = public_columns r.
Proof.
  induction 1 as [w|w w' c _ [IHseq IHrows]].
  - split; [done|]. intros r' Hr' _. by exists r'.
  - pose proof (serve_sequence env cloud c w') as Hseq. split; [lia|].
    intros r'' Hr'' Hold.
    destruct (serve_rows env cloud c w' r'' Hr'') as [_ [(r' & Hr' & Hsame)|Hnew]];
      [|lia].
    destruct (IHrows r' Hr') as (r & Hr & Hsame').
    { replace (r_id r') with (r_id r''); [done|].
      by apply (f_equal p_id) in Hsame. }
    exists r. split; [done|]. congruence.
Qed.

(** X7.  Over any history of requests the sequence never moves back, and
    a later row that carries an id from before is the entry that carried
    it then, with the same name, note, photos and timestamp.  So an id
    that no row holds any more, because its row was deleted, is not given
    to another entry. *)
Theorem ids_are_not_reused env cloud w w' :
  steps env cloud w w' ->
  next_id (table w) <= next_id (table w')
  /\ (forall r', r' ∈ rows (table w') -> r_id r' < next_id (table w) ->
        exists r, r ∈ rows (table w) /\ public_columns r' = public_columns r)
  /\ (forall id, id < next_id (table w) -> id ∉ r_id <$> rows (table w) ->
        id ∉ r_id <$> rows (table w')).
Proof.
  intros Hsteps. destruct (steps_rows env cloud w w' Hsteps) as [Hseq Hrows].
  split; [done|]. split; [done|].
  intros id Hold Hfree (r' & -> & Hr')%list_elem_of_fmap.
  destruct (Hrows r' Hr' Hold) as (r & Hr & Hsame).
  apply Hfree. replace (r_id r') with (r_id r).
  - by apply list_elem_of_fmap_2.
  - by apply (f_equal p_id) in Hsame.
Qed.

Lemma ids_are_not_reused_witness :
  next_id (table sample_world) <= next_id (table later_world)
  /\ (forall r', r' ∈ rows (table later_world) -> r_id r' < next_id (table sample_world) ->
        exists r, r ∈ rows (table sample_world) /\ public_columns r' = public_columns r)
  /\ (forall id, id < next_id (table sample_world) ->
        id ∉ r_id <$> rows (table sample_world) ->
        id ∉ r_id <$> rows (table later_world))
  /\ r_id <$> rows (table sample_world) = [1; 2]
  /\ r_id <$> rows (table later_world) = [2; 3].
Proof.
  split_and!; [apply (ids_are_not_reused sample_env sample_cloud); repeat constructor..| |];
    vm_compute; reflexivity.
Defined.

(** X8.  With the right password the admin list is answered with every
    row of the table, approved or not, newest first, and the world stays
    as it was. *)
Theorem admin_list_shows_every_row env w :
  exists entries,
    get_admin_entries env (ADMIN_PASSWORD env) w
    = (Returned (json (AdminEntriesJson entries)), w)
    /\ entries ≡ₚ rows (table w)
    /\ StronglySorted newer_first entries.
Proof.
  exists (select_all (table w)). split_and!.
  - unfold get_admin_entries. rewrite adminAuth_decide, decide_True by done.
    by destruct w.
  - apply merge_sort_Permutation.
  - apply StronglySorted_merge_sort; apply _.
Qed.

(* ================================================================== *)
(** * Further properties of the submission handler *)

Lemma successful_urls_length (results : list UploadResult) :
  (length (successful_urls results) <= length results)%nat.
Proof.
  unfold successful_urls. induction results as [|[url|m] l IH]; cbn; lia.
Qed.

Lemma upload_results_length cloud fs : forall k,
  length (upload_results cloud k fs) = length fs.
Proof. induction fs as [|f fs IH]; intros k; cbn; [done|]. by rewrite IH. Qed.

Lemma photo_results_length env cloud k fs :
  (length (successful_urls (photo_results env cloud k fs)) <= length (default [] fs))%nat.
Proof.
  etrans; [apply successful_urls_length|].
  unfold photo_results. destruct fs as [[|f fs]|]; cbn [default length]; try lia.
  destruct (cloudinaryConfigured env); [|cbn; lia].
  by rewrite upload_results_length.
Qed.

(** X9.  Whatever the request, the submission handler answers and never
    throws, and a row is created exactly when the answer is 200.  With
    400 or 500 the table is as it was.  With 200 the table is the old
    one, untouched, with one row added at its end: the row has the next
    id of the sequence, the time of the insert, the flag the private field
    decides, and at most as many photos as files were submitted. *)
Theorem submission_only_appends env cloud now req w :
  exists resp w',
    post_entries env cloud now req w = (Returned resp, w')
    /\ (((status resp = 400%nat \/ status resp = 500%nat) /\ table w' = table w)
        \/ (status resp = 200%nat
            /\ exists r,
                 rows (table w') = rows (table w) ++ [r]
                 /\ next_id (table w') = next_id (table w) + 1
                 /\ r_id r = next_id (table w)
                 /\ r_created_at r = now
                 /\ r_approved r = negb (isPrivate req)
                 /\ (length (r_photos r) <= length (default [] (files req)))%nat)).
Proof.
  unfold post_entries, try_catch.
  destruct (negb (Js.truthy (body_name req)) || negb (Js.truthy (body_note req))).
  { eexists _, _. split; [reflexivity|]. left. split; [by left|done]. }
  destruct (Js.length_gt (body_name req) 120).
  { eexists _, _. split; [reflexivity|]. left. split; [by left|done]. }
  unfold bind at 1. rewrite collect_photos_spec.
  unfold bind, sql, ret, console_error, update_world. cbn [table].
  unfold insert_entry.
  destruct (Js.to_sql_text (body_name req)) as [name|].
  2:{ eexists _, _. split; [reflexivity|]. left. split; [by right|done]. }
  destruct (Js.to_sql_text (body_note req)) as [note|].
  2:{ eexists _, _. split; [reflexivity|]. left. split; [by right|done]. }
  destruct (bool_decide _).
  2:{ eexists _, _. split; [reflexivity|]. left. split; [by right|done]. }
  eexists _, _. split; [reflexivity|]. right. split; [done|].
  eexists. cbn [table rows next_id r_id r_created_at r_approved r_photos].
  split_and!; try done. apply photo_results_length.
Qed.




(* ================================================================== *)
(** * Further properties of the export script *)

Lemma download_photos_trace net id photos : forall i embedded w,
  requests (ExportScript.download_photos net id i photos embedded w).2
  = requests w ++ photos
  /\ totalPhotos (ExportScript.download_photos net id i photos embedded w).2
     = (totalPhotos w + length photos)%nat.
Proof.
  induction photos as [|url rest IH]; intros i embedded w.
  - cbn. by rewrite app_nil_r, Nat.add_0_r.
  - cbn [ExportScript.download_photos].
    destruct w as [d rq tp out]. step_async.
    rewrite downloadImage_spec. cbn [requests disk totalPhotos output].
    destruct (net (length rq) url) as [res|message]; [destruct (ok res)|];
      match goal with
      | |- context [ExportScript.download_photos net id ?i rest ?e ?w] =>
          destruct (IH i e w) as [-> ->]
      end;
      cbn [requests totalPhotos length]; rewrite <- app_assoc;
      (split; [done|lia]).
Qed.

Lemma embed_photos_trace net entries : forall w,
  exists found w',
    ExportScript.embed_photos net entries w = (Returned found, w')
    /\ requests w' = requests w ++ concat (r_photos <$> entries)
    /\ totalPhotos w' = (totalPhotos w + length (concat (r_photos <$> entries)))%nat.
Proof.
  induction entries as [|entry rest IH]; intros w.
  - exists [], w. cbn. by rewrite app_nil_r, Nat.add_0_r.
  - cbn [ExportScript.embed_photos fmap list_fmap concat].
    assert (exists embedded w1,
      match r_photos entry with
      | [] => ret []
      | _ :: _ => ExportScript.download_photos net (r_id entry) 0 (r_photos entry) []
      end w = (Returned embedded, w1)
      /\ requests w1 = requests w ++ r_photos entry
      /\ totalPhotos w1 = (totalPhotos w + length (r_photos entry))%nat)
      as (embedded & w1 & Hinner & Hrq & Htp).
    { destruct (r_photos entry) as [|url urls] eqn:Hphotos.
      - exists [], w. cbn. by rewrite app_nil_r, Nat.add_0_r.
      - destruct (download_photos_spec net (r_id entry) (url :: urls) 0 [] w)
          as (w1 & Hrun & _).
        destruct (download_photos_trace net (r_id entry) (url :: urls) 0 [] w)
          as [Hrq Htp].
        rewrite Hrun in Hrq, Htp. by eexists _, w1. }
    destruct (IH w1) as (found & w' & Hrest & Hrq' & Htp').
    eexists _, w'.
    rewrite (bind_returned _ _ _ _ _ Hinner), (bind_returned _ _ _ _ _ Hrest).
    split; [reflexivity|].
    rewrite Hrq', Hrq, Htp', Htp, length_app, <- app_assoc. split; [done|lia].
Qed.

(** X11.  An export run asks the network for each photo URL of each
    entry exactly once, in the order of the export (oldest entry first,
    photos in their order), whatever the answers are: there is no retry
    and no URL is skipped.  The counter it prints is the number of URLs. *)
Theorem every_photo_is_fetched_once tpl net db w :
  requests (ExportScript.main tpl net db w).2
  = requests w ++ concat (r_photos <$> select_all_asc db)
  /\ totalPhotos (ExportScript.main tpl net db w).2
     = (totalPhotos w + length (concat (r_photos <$> select_all_asc db)))%nat.
Proof.
  destruct w as [d rq tp out]. unfold ExportScript.main. step_async.
  edestruct (embed_photos_trace net (select_all_asc db))
    as (found & w1 & Hrun & Hrq & Htp).
  rewrite Hrun. clear Hrun. cbn [requests totalPhotos] in *.
  rewrite write_variants_spec. cbn [snd requests totalPhotos]. by split.
Qed.

Lemma jsonData_embedded net entries : forall k,
  ExportScript.jsonData (embedded_entries net k entries) = row_json <$> entries.
Proof.
  unfold ExportScript.jsonData.
  induction entries as [|r l IH]; intros k; [done|].
  cbn [embedded_entries fmap list_fmap]. f_equal. apply IH.
Qed.

(** X12.  The raw JSON an export run leaves on disk does not depend on
    the network or on the page template: it holds every row of the table
    once, oldest first, with its id, name, note, flag, timestamp and photo
    URLs as the table has them. *)
Theorem raw_export_is_the_table tpl net db w :
  json_file (disk (ExportScript.main tpl net db w).2)
  = Some (row_json <$> select_all_asc db)
  /\ select_all_asc db ≡ₚ rows db
  /\ StronglySorted older_first (select_all_asc db).
Proof.
  destruct (main_spec tpl net db w) as (w' & Hrun & Hjson & _).
  rewrite Hrun. cbn [snd]. rewrite Hjson, jsonData_embedded. split_and!.
  - done.
  - apply merge_sort_Permutation.
  - apply StronglySorted_merge_sort; apply _.
Qed.

(** X13.  A download that fails, because the fetch is refused or the
    answer is not ok, writes no file: [downloadImage] returns [null], the
    [backup/] directory is as it was, and one error line is printed, with
    [HTTP <status>] as the reason for an answer that is not ok. *)
Theorem failed_download_writes_nothing net url id n w :
  fails (net (length (requests w)) url) = true ->
  exists message,
    ExportScript.downloadImage net url id n w
    = (Returned None,
       {| disk := disk w; requests := requests w ++ [url];
          totalPhotos := totalPhotos w;
          output := output w
            ++ [ConsoleError ("  Failed to download: " +:+ url +:+ " — " +:+ message) ""] |})
    /\ (forall res, net (length (requests w)) url = Resolved res ->
          message = "HTTP " +:+ show_nat (http_status res))
    /\ (forall reason, net (length (requests w)) url = Rejected reason ->
          message = reason).
Proof.
  intros Hfails. rewrite downloadImage_spec.
  destruct (net (length (requests w)) url) as [res|reason]; cbn [fails] in Hfails.
  - destruct (ok res); [done|]. eexists. split; [reflexivity|].
    split; [by intros ? [= <-]|done].
  - eexists. split; [reflexivity|]. split; [done|by intros ? [= <-]].
Qed.

Lemma failed_download_writes_nothing_witness :
  exists message,
    ExportScript.downloadImage sample_network "http://a/2" 2 2
      {| disk := empty_disk; requests := ["http://a/0"; "http://a/1"];
         totalPhotos := 3; output := [] |}
    = (Returned None,
       {| disk := empty_disk; requests := ["http://a/0"; "http://a/1"] ++ ["http://a/2"];
          totalPhotos := 3;
          output := [] ++ [ConsoleError ("  Failed to download: " +:+ "http://a/2"
                                         +:+ " — " +:+ message) ""] |})
    /\ (forall res, sample_network 2%nat "http://a/2" = Resolved res ->
          message = "HTTP " +:+ show_nat (http_status res))
    /\ (forall reason, sample_network 2%nat "http://a/2" = Rejected reason ->
          message = reason).
Proof.
  apply (failed_download_writes_nothing sample_network "http://a/2" 2 2
           {| disk := empty_disk; requests := ["http://a/0"; "http://a/1"];
              totalPhotos := 3; output := [] |}).
  reflexivity.
Defined.

Lemma fetch_results_length net urls : forall k,
  length (fetch_results net k urls) = length urls.
Proof. induction urls as [|u l IH]; intros k; cbn; [done|]. by rewrite IH. Qed.

Lemma none_failed net urls : forall k,
  (forall k u, fails (net k u) = false) ->
  filter (fun r => fails r = true) (fetch_results net k urls) = [].
Proof.
  induction urls as [|u l IH]; intros k Hok; [done|].
  cbn [fetch_results]. rewrite filter_cons_False by (by rewrite Hok).
  by apply IH.
Qed.

Lemma embedded_entries_rows net entries : forall k,
  Forall2 (fun r e =>
             row_json r = {| j_id := e_id e; j_name := e_name e; j_note := e_note e;
                             j_approved := e_approved e;
                             j_created_at := e_created_at e;
                             j_photo_urls := e_photos e |}
             /\ (length (embeddedPhotos e) <= length (r_photos r))%nat
             /\ ((forall k u, fails (net k u) = false) ->
                 length (embeddedPhotos e) = length (r_photos r)))
          entries (embedded_entries net k entries).
Proof.
  induction entries as [|r l IH]; intros k; constructor; [|apply IH].
  cbn [embeddedPhotos e_id e_name e_note e_approved e_created_at e_photos].
  pose proof (fetched_or_failed (fetch_results net k (r_photos r))) as Hlen.
  rewrite fetch_results_length in Hlen. split_and!; [done|lia|].
  intros Hok. rewrite none_failed in Hlen by done. cbn in Hlen. lia.
Qed.

(** X14.  The download loop of the export script never throws.  It
    yields one entry object per row, in the order of the rows, with the
    fields of the row, and never more embedded photos than the row has
    URLs; when no fetch fails every URL is embedded. *)
Theorem one_entry_per_row net entries w :
  exists found w',
    ExportScript.embed_photos net entries w = (Returned found, w')
    /\ Forall2 (fun r e =>
                  row_json r
                  = {| j_id := e_id e; j_name := e_name e; j_note := e_note e;
                       j_approved := e_approved e;
                       j_created_at := e_created_at e;
                       j_photo_urls := e_photos e |}
                  /\ (length (embeddedPhotos e) <= length (r_photos r))%nat
                  /\ ((forall k u, fails (net k u) = false) ->
                      length (embeddedPhotos e) = length (r_photos r)))
               entries found.
Proof.
  destruct (embed_photos_spec net entries w) as (w' & Hrun & _).
  eexists _, w'. split; [exact Hrun|]. apply embedded_entries_rows.
Qed.

(* ================================================================== *)
(** * Further properties of [generate-html.js] *)






Lemma omap_length_le {A B} (f : A -> option B) (l : list A) :
  (length (omap f l) <= length l)%nat.
Proof.
  induction l as [|x l IH]; [done|]. unfold omap in *. cbn [list_omap].
  destruct (f x); cbn; lia.
Qed.

(** X16.  For every photo slot the offline script embeds the first file
    that exists among the candidates [.jpg], [.png], [.gif], [.webp] of
    the slot's base name, with the media type its extension stands for;
    it embeds nothing exactly when none of the four exists, and so an
    entry never gets more embedded photos than it has URLs. *)
Theorem offline_lookup_takes_the_first_candidate d id i :
  (GenerateHtml.load_photo d id i = None <->
   Forall (fun ext => photos_dir d !! (base_name id (i + 1) +:+ ext) = None)
          GenerateHtml.candidates)
  /\ (forall uri,
        GenerateHtml.load_photo d id i = Some uri ->
        exists ext buffer,
          ext ∈ GenerateHtml.candidates
          /\ Forall (fun c => photos_dir d !! (base_name id (i + 1) +:+ c) = None)
                    (probed_before ext GenerateHtml.candidates)
          /\ photos_dir d !! (base_name id (i + 1) +:+ ext) = Some buffer
          /\ uri = "data:" +:+ mime_of_extension ext +:+ ";base64," +:+ base64 buffer)
  /\ (forall entry,
        (length (GenerateHtml.load_photos d entry) <= length (j_photo_urls entry))%nat).
Proof.
  assert (Hcases :
    (exists ext buffer,
       ext ∈ GenerateHtml.candidates
       /\ Forall (fun c => photos_dir d !! (base_name id (i + 1) +:+ c) = None)
                 (probed_before ext GenerateHtml.candidates)
       /\ photos_dir d !! (base_name id (i + 1) +:+ ext) = Some buffer)
    \/ Forall (fun ext => photos_dir d !! (base_name id (i + 1) +:+ ext) = None)
              GenerateHtml.candidates).
  { unfold GenerateHtml.candidates.
    destruct (photos_dir d !! (base_name id (i + 1) +:+ ".jpg")) as [b|] eqn:H1.
    { left. exists ".jpg", b. split_and!; [apply list_elem_of_here| |done]. constructor. }
    destruct (photos_dir d !! (base_name id (i + 1) +:+ ".png")) as [b|] eqn:H2.
    { left. exists ".png", b.
      split_and!; [apply list_elem_of_further, list_elem_of_here| |done].
      by repeat constructor. }
    destruct (photos_dir d !! (base_name id (i + 1) +:+ ".gif")) as [b|] eqn:H3.
    { left. exists ".gif", b.
      split_and!; [do 2 apply list_elem_of_further; apply list_elem_of_here| |done].
      by repeat constructor. }
    destruct (photos_dir d !! (base_name id (i + 1) +:+ ".webp")) as [b|] eqn:H4.
    { left. exists ".webp", b.
      split_and!; [do 3 apply list_elem_of_further; apply list_elem_of_here| |done].
      by repeat constructor. }
    right. by repeat constructor. }
  assert (Hnone :
    Forall (fun ext => photos_dir d !! (base_name id (i + 1) +:+ ext) = None)
           GenerateHtml.candidates ->
    GenerateHtml.load_photo d id i = None).
  { unfold GenerateHtml.load_photo, GenerateHtml.candidates.
    fold (base_name id (i + 1)). intros H.
    repeat (apply Forall_cons in H as [?Hmiss H]). cbn beta in *.
    cbn [fmap list_fmap List.find]. unfold GenerateHtml.existsSync.
    repeat match goal with
           | Hm : photos_dir d !! _ = None |- _ => rewrite Hm; clear Hm
           end.
    done. }
  split_and!.
  - split; [|exact Hnone].
    destruct Hcases as [(ext & buffer & Hext & Hbefore & Hfile)|Hall]; [|done].
    by rewrite (load_photo_finds d id i ext buffer Hext Hbefore Hfile).
  - intros uri Huri.
    destruct Hcases as [(ext & buffer & Hext & Hbefore & Hfile)|Hall].
    + exists ext, buffer. split_and!; try done.
      rewrite (load_photo_finds d id i ext buffer Hext Hbefore Hfile) in Huri.
      by injection Huri as <-.
    + by rewrite (Hnone Hall) in Huri.
  - intros entry. unfold GenerateHtml.load_photos.
    etrans; [apply omap_length_le|]. by rewrite length_seq.
Qed.

(* ================================================================== *)
(** * Further properties of [escapeHtml] *)

Lemma entity_prefix c d s t :
  entity c +:+ s = entity d +:+ t -> c = d /\ s = t.
Proof.
  unfold entity.
  destruct (Ascii.eqb_spec c "&") as [->|Hc1];
    [|destruct (Ascii.eqb_spec c "<") as [->|Hc2];
      [|destruct (Ascii.eqb_spec c ">") as [->|Hc3];
        [|destruct (Ascii.eqb_spec c (Ascii.ascii_of_nat 34)) as [->|Hc4]]]];
  (destruct (Ascii.eqb_spec d "&") as [->|Hd1];
    [|destruct (Ascii.eqb_spec d "<") as [->|Hd2];
      [|destruct (Ascii.eqb_spec d ">") as [->|Hd3];
        [|destruct (Ascii.eqb_spec d (Ascii.ascii_of_nat 34)) as [->|Hd4]]]]);
  intros H; vm_compute in H; simplify_eq; done.
Qed.

Lemma escape_each_inj s : forall t, escape_each s = escape_each t -> s = t.
Proof.
  induction s as [|c s IH]; intros [|d t]; cbn [escape_each].
  - done.
  - unfold entity. intros H.
    repeat (destruct (Ascii.eqb _ _)); vm_compute in H; discriminate.
  - unfold entity. intros H.
    repeat (destruct (Ascii.eqb _ _)); vm_compute in H; discriminate.
  - intros [-> Hrest]%entity_prefix. f_equal. by apply IH.
Qed.

(** X17.  [escapeHtml] loses nothing: two texts that are escaped to the
    same string are the same text. *)
Theorem escapeHtml_is_injective (s t : string) :
  escapeHtml s = escapeHtml t -> s = t.
Proof. rewrite !escapeHtml_each. apply escape_each_inj. Qed.

Lemma escapeHtml_is_injective_witness :
  "Alex & Jo" = String.append "Alex " "& Jo".
Proof. apply escapeHtml_is_injective. reflexivity. Defined.

Lemma string_length_app (a b : string) :
  String.length (a +:+ b) = (String.length a + String.length b)%nat.
Proof.
  induction a as [|c a IH]; [done|].
  change (String c a +:+ b) with (String c (a +:+ b)). cbn. by rewrite IH.
Qed.

Lemma escapeHtml_length (str : string) :
  String.length (escapeHtml str)
  = (String.length str + 4 * count_char "&" str + 3 * count_char "<" str
     + 3 * count_char ">" str + 5 * count_char (Ascii.ascii_of_nat 34) str)%nat.
Proof.
  rewrite escapeHtml_each.
  induction str as [|c str IH]; [done|].
  cbn [escape_each count_char String.length]. rewrite string_length_app, IH.
  unfold entity.
  set (q := Ascii.ascii_of_nat 34). vm_compute in q. subst q.
  destruct (Ascii.eqb_spec c "&") as [->|H1]; [cbn; lia|].
  destruct (Ascii.eqb_spec c "<") as [->|H2]; [cbn; lia|].
  destruct (Ascii.eqb_spec c ">") as [->|H3]; [cbn; lia|].
  match goal with
  | |- context [Ascii.eqb c ?q] => destruct (Ascii.eqb_spec c q) as [->|H4]
  end; cbn; lia.
Qed.

(** X18.  [escapeHtml] leaves a text as it is exactly when the text has
    none of [&], [<], [>] and the double quote; each of these makes the
    result longer, by 4, 3, 3 and 5 characters. *)
Theorem escapeHtml_changes_only_special_text (str : string) :
  (escapeHtml str = str <->
   Forall (fun c => count_char c str = 0%nat) escaped_characters)
  /\ String.length (escapeHtml str)
     = (String.length str + 4 * count_char "&" str + 3 * count_char "<" str
        + 3 * count_char ">" str + 5 * count_char (Ascii.ascii_of_nat 34) str)%nat.
Proof.
  split; [|apply escapeHtml_length]. split.
  - intros Hsame. pose proof (escapeHtml_length str) as Hlen. rewrite Hsame in Hlen.
    unfold escaped_characters. repeat constructor; lia.
  - unfold escaped_characters. intros H.
    apply Forall_cons in H as [H1 H]. apply Forall_cons in H as [H2 H].
    apply Forall_cons in H as [H3 H]. apply Forall_cons in H as [H4 _].
    rewrite escapeHtml_each.
    induction str as [|c str IH]; [done|].
    cbn [count_char escape_each] in *. unfold entity.
    destruct (Ascii.eqb c "&"); [done|].
    destruct (Ascii.eqb c "<"); [done|].
    destruct (Ascii.eqb c ">"); [done|].
    destruct (Ascii.eqb c (Ascii.ascii_of_nat 34)); [done|].
    cbn in *.
    change (String c EmptyString +:+ escape_each str) with (String c (escape_each str)).
    f_equal. by apply IH.
Qed.
